(** * Icon cache service worker (fetch.js): model and verified properties

    A shallow embedding of the icon-caching [fetch] handler of the
    miaoing-tab background service worker.  The JavaScript is asynchronous
    but sequential inside one handler run, so it is modelled in a small
    state-and-exception monad over a [World] that holds what the handler
    reads and writes: [chrome.storage.local], the [CacheStorage], the
    console, the list of network requests sent so far, and a schedule of
    I/O faults (the handler guards its storage and cache calls with
    [try]/[catch], so these calls are modelled as fallible). *)

From Stdlib Require Import ZArith String Ascii List Bool.
From stdpp Require Import base option list strings gmap.

Local Open Scope string_scope.
Local Open Scope Z_scope.

(** ** JavaScript strings *)

(** [s.startsWith(p)]. *)
Fixpoint startsWith (s p : string) : bool :=
  match p, s with
  | EmptyString, _ => true
  | String _ _, EmptyString => false
  | String a p', String b s' => if Ascii.eqb a b then startsWith s' p' else false
  end.

(** [s.includes(needle)]: [needle] occurs somewhere in [s]. *)
Fixpoint includes (s needle : string) : bool :=
  startsWith s needle ||
  match s with
  | EmptyString => false
  | String _ s' => includes s' needle
  end.

(** ASCII lower-casing, as the Fetch standard applies to header names. *)
Definition lower_ascii (c : ascii) : ascii :=
  let n := nat_of_ascii c in
  if (65 <=? n)%nat && (n <=? 90)%nat then ascii_of_nat (n + 32) else c.

Fixpoint toLowerCase (s : string) : string :=
  match s with
  | EmptyString => EmptyString
  | String c s' => String (lower_ascii c) (toLowerCase s')
  end.

(** Truthiness of a value that is a string or [null]/[undefined]:
    only a non-empty string is truthy. *)
Definition truthy (v : option string) : bool :=
  match v with
  | Some s => negb (String.eqb s "")
  | None => false
  end.

(** ** Headers, requests and responses *)

(** A [Headers] object: the list of (name, value) pairs it was built from. *)
Definition Headers : Type := list (string * string).

(** [headers.get(name)]: names compare case-insensitively; the values of
    all matching entries are joined with a comma and a space; [null] when
    there is none. *)
Definition headers_get (h : Headers) (name : string) : option string :=
  match List.filter (fun p => String.eqb (toLowerCase (fst p)) (toLowerCase name)) h with
  | [] => None
  | p :: ps => Some (fold_left (fun acc q => acc ++ ", " ++ snd q) ps (snd p))%string
  end.

Record Response : Type := mkResponse {
  resp_url : string;                  (* response.url, empty for a synthetic response *)
  resp_status : Z;                    (* response.status *)
  resp_headers : option Headers;      (* response.headers *)
  resp_body : string
}.

(** [response.ok]: the status is in the range 200..299. *)
Definition resp_ok (r : Response) : bool :=
  (200 <=? resp_status r) && (resp_status r <=? 299).

(** A [Request]; the Cache API matches requests by URL. *)
Record Request : Type := mkRequest { req_url : string }.

Definition new_Request (url : string) : Request := {| req_url := url |}.

(** The two ways the handler calls [fetch]. *)
Inductive FetchCall : Type :=
| FetchRequest (request : Request)     (* fetch(event.request) *)
| FetchFollow (url : string).          (* fetch(url, { redirect: 'follow' }) *)

(** ** Configuration constants *)

Definition ICON_CACHE_NAME : string := "miaowing-tab-icon-cache-v1".
Definition ICON_CACHE_DURATION : Z := 30 * 24 * 60 * 60 * 1000.
Definition REDIRECT_MAP_KEY : string := "icon-redirect-map".

(** ** Errors and console output *)

Inductive JsError : Type :=
| StorageError            (* a chrome.storage.local call rejected *)
| CacheError              (* a CacheStorage / Cache call rejected *)
| TransportError.         (* fetch rejected: DNS failure, network down, ... *)

(** One constructor per [console.warn] / [console.error] call site. *)
Inductive LogEntry : Type :=
| WarnNoChromeStorage                                   (* line 12 *)
| ErrorReadIconUrls (e : JsError)                       (* line 21 *)
| ErrorReadRedirectMap (e : JsError)                    (* line 39 *)
| ErrorSaveRedirectMapping (e : JsError)                (* line 66 *)
| ErrorGetIconFromCache (e : JsError)                   (* line 159 *)
| WarnNotImage (url : string) (ct : option string)      (* line 199 *)
| ErrorCacheIcon (e : JsError)                          (* line 208 *)
| ErrorCleanExpired (e : JsError)                       (* line 233 *)
| ErrorFetch (url : string) (e : JsError)               (* line 278 *)
| WarnStatus (url : string) (status : Z)                (* line 304 *)
| ErrorGetIcon (url : string) (e : JsError)             (* line 309 *)
| WarnPlaceholder (url : string).                       (* line 319 *)

(** ** The world *)

(** A [Cache]: request URL to stored response. *)
Abbreviation Cache := (gmap string Response).

Record World : Type := mkWorld {
  (* [chrome && chrome.storage] is truthy *)
  chrome_storage : bool;
  (* chrome.storage.local['cached-online-icon-urls']; [None] when the
     value is missing or is not an array *)
  cached_online_icon_urls : option (list string);
  (* chrome.storage.local['icon-redirect-map']; a missing value reads as {} *)
  icon_redirect_map : gmap string string;
  (* the CacheStorage [caches]: named caches in creation order *)
  caches : list (string * Cache);
  console : list LogEntry;
  (* the network requests sent so far, oldest first *)
  network_log : list FetchCall;
  (* outcome of the coming storage and cache calls: [true] = the call
     rejects; past the end of the list every call succeeds *)
  faults : list bool
}.

(** What the handler cannot change: the clock, the date parser and the
    network.  [Date_parse s] is [new Date(s).getTime()], [None] standing
    for NaN; [fetch_result c] is [None] when the transport fails. *)
Record Env : Type := mkEnv {
  Date_now : Z;
  Date_parse : string -> option Z;
  fetch_result : FetchCall -> option Response
}.

Definition set_icon_redirect_map (m : gmap string string) (w : World) : World :=
  mkWorld (chrome_storage w) (cached_online_icon_urls w) m (caches w)
          (console w) (network_log w) (faults w).

Definition set_caches (cs : list (string * Cache)) (w : World) : World :=
  mkWorld (chrome_storage w) (cached_online_icon_urls w) (icon_redirect_map w) cs
          (console w) (network_log w) (faults w).

Definition set_console (c : list LogEntry) (w : World) : World :=
  mkWorld (chrome_storage w) (cached_online_icon_urls w) (icon_redirect_map w) (caches w)
          c (network_log w) (faults w).

Definition set_network_log (l : list FetchCall) (w : World) : World :=
  mkWorld (chrome_storage w) (cached_online_icon_urls w) (icon_redirect_map w) (caches w)
          (console w) l (faults w).

Definition set_faults (f : list bool) (w : World) : World :=
  mkWorld (chrome_storage w) (cached_online_icon_urls w) (icon_redirect_map w) (caches w)
          (console w) (network_log w) f.

(** ** The monad: state plus exceptions *)

Inductive Result (A : Type) : Type :=
| Ok (a : A)
| Throw (e : JsError).
Arguments Ok {A} a.
Arguments Throw {A} e.

Definition M (A : Type) : Type := World -> Result A * World.

Definition ret {A} (a : A) : M A := fun w => (Ok a, w).

Definition throw {A} (e : JsError) : M A := fun w => (Throw e, w).

Definition bind {A B} (m : M A) (k : A -> M B) : M B :=
  fun w =>
    match m w with
    | (Ok a, w') => k a w'
    | (Throw e, w') => (Throw e, w')
    end.

(** [try { m } catch (e) { h e }] *)
Definition try_catch {A} (m : M A) (h : JsError -> M A) : M A :=
  fun w =>
    match m w with
    | (Ok a, w') => (Ok a, w')
    | (Throw e, w') => h e w'
    end.

Declare Scope js_scope.
Delimit Scope js_scope with js.
Notation "x <~ c ;; k" := (bind c (fun x => k))
  (at level 100, c at next level, right associativity) : js_scope.
Notation "c ;;; k" := (bind c (fun _ => k))
  (at level 100, k at level 200, right associativity) : js_scope.
Local Open Scope js_scope.

Definition gets {A} (f : World -> A) : M A := fun w => (Ok (f w), w).
Definition modify (f : World -> World) : M unit := fun w => (Ok tt, f w).

(** ** I/O primitives *)

(** Takes the outcome of the next fallible call from the schedule. *)
Definition next_fault : M bool :=
  fun w =>
    match faults w with
    | [] => (Ok false, w)
    | b :: fs => (Ok b, set_faults fs w)
    end.

Definition fallible (e : JsError) : M unit :=
  b <~ next_fault ;; if b : bool then throw e else ret tt.

Definition console_log (l : LogEntry) : M unit :=
  modify (fun w => set_console (console w ++ [l]) w).

(** [chrome.storage.local.get('cached-online-icon-urls')], then the field. *)
Definition storage_get_icon_urls : M (option (list string)) :=
  fallible StorageError ;;; gets cached_online_icon_urls.

(** [chrome.storage.local.get(REDIRECT_MAP_KEY)], then [result[KEY] || {}]. *)
Definition storage_get_redirect_map : M (gmap string string) :=
  fallible StorageError ;;; gets icon_redirect_map.

(** [chrome.storage.local.set({ [REDIRECT_MAP_KEY]: m })]. *)
Definition storage_set_redirect_map (m : gmap string string) : M unit :=
  fallible StorageError ;;; modify (set_icon_redirect_map m).

(** Association-list operations on the CacheStorage. *)
Fixpoint cs_lookup (name : string) (cs : list (string * Cache)) : option Cache :=
  match cs with
  | [] => None
  | (n, c) :: cs' => if String.eqb n name then Some c else cs_lookup name cs'
  end.

Fixpoint cs_update (name : string) (f : Cache -> Cache) (cs : list (string * Cache))
  : list (string * Cache) :=
  match cs with
  | [] => []
  | (n, c) :: cs' =>
      if String.eqb n name then (n, f c) :: cs' else (n, c) :: cs_update name f cs'
  end.

(** First match over all caches, in creation order. *)
Fixpoint cs_match (url : string) (cs : list (string * Cache)) : option Response :=
  match cs with
  | [] => None
  | (_, c) :: cs' =>
      match c !! url with
      | Some r => Some r
      | None => cs_match url cs'
      end
  end.

(** [caches.open(name)]: creates the cache when it does not exist yet;
    the handle returned is the cache's name. *)
Definition caches_open (name : string) : M string :=
  fallible CacheError ;;;
  modify (fun w => match cs_lookup name (caches w) with
                   | Some _ => w
                   | None => set_caches (caches w ++ [(name, ∅)]) w
                   end) ;;;
  ret name.

(** [cache.match(request)] *)
Definition cache_match (cache : string) (request : Request) : M (option Response) :=
  fallible CacheError ;;;
  gets (fun w => match cs_lookup cache (caches w) with
                 | Some c => c !! req_url request
                 | None => None
                 end).

(** [cache.put(request, response)]; the rejections the schedule stands
    for include the [TypeError] the Cache API raises for a response it
    refuses to store. *)
Definition cache_put (cache : string) (request : Request) (response : Response) : M unit :=
  fallible CacheError ;;;
  modify (fun w => set_caches (cs_update cache (insert (req_url request) response) (caches w)) w).

(** [cache.delete(request)] *)
Definition cache_delete (cache : string) (request : Request) : M unit :=
  fallible CacheError ;;;
  modify (fun w => set_caches (cs_update cache (delete (req_url request)) (caches w)) w).

(** [caches.match(request)]: looks in every cache of the CacheStorage. *)
Definition caches_match (request : Request) : M (option Response) :=
  fallible CacheError ;;;
  gets (fun w => cs_match (req_url request) (caches w)).

(** [fetch(...)]: records the request; rejects on a transport failure. *)
Definition fetch (E : Env) (call : FetchCall) : M Response :=
  modify (fun w => set_network_log (network_log w ++ [call]) w) ;;;
  match fetch_result E call with
  | Some r => ret r
  | None => throw TransportError
  end.

(** ** The functions of fetch.js *)

(** [getCachedIconUrls] (lines 9-24): the user's icon URLs as a set. *)
Definition getCachedIconUrls : M (gset string) :=
  available <~ gets chrome_storage ;;
  if negb available then
    console_log WarnNoChromeStorage ;;; ret ∅
  else
    try_catch
      (cached <~ storage_get_icon_urls ;;
       ret (match cached with
            | Some urls => list_to_set urls
            | None => ∅
            end))
      (fun error => console_log (ErrorReadIconUrls error) ;;; ret ∅).

(** [getRedirectMap] (lines 29-42). *)
Definition getRedirectMap : M (gmap string string) :=
  available <~ gets chrome_storage ;;
  if negb available then ret ∅
  else
    try_catch
      storage_get_redirect_map
      (fun error => console_log (ErrorReadRedirectMap error) ;;; ret ∅).

(** [saveRedirectMapping] (lines 47-68). *)
Definition saveRedirectMapping (originalUrl finalUrl : string) : M unit :=
  if String.eqb originalUrl finalUrl then ret tt
  else
    available <~ gets chrome_storage ;;
    if negb available then ret tt
    else
      try_catch
        (redirectMap <~ getRedirectMap ;;
         storage_set_redirect_map (<[originalUrl := finalUrl]> redirectMap))
        (fun error => console_log (ErrorSaveRedirectMapping error)).

(** [resolveRedirectUrl] (lines 73-84). *)
Definition resolveRedirectUrl (originalUrl : string) : M string :=
  redirectMap <~ getRedirectMap ;;
  if truthy (redirectMap !! originalUrl) then
    ret (default originalUrl (redirectMap !! originalUrl))
  else
    ret originalUrl.

(** [isIconRequest] (lines 89-107). *)
Definition isIconRequest (url : string) : M bool :=
  try_catch
    (if includes url "/assets/" then ret false
     else
       cachedUrls <~ getCachedIconUrls ;;
       if bool_decide (url ∈ cachedUrls) then ret true
       else ret false)
    (fun error => ret false).

(** [isCacheExpired] (lines 112-134).  [response] is [None] for a
    missing response.  A [Date] value the parser rejects gives NaN, and
    [NaN > ICON_CACHE_DURATION] is false. *)
Definition isCacheExpired (E : Env) (response : option Response) : bool :=
  match response with
  | None => true
  | Some r =>
      match resp_headers r with
      | None => true
      | Some headers =>
          let cacheControl := headers_get headers "Cache-Control" in
          if truthy cacheControl && includes (default "" cacheControl) "no-store" then true
          else
            let dateHeader := headers_get headers "Date" in
            if negb (truthy dateHeader) then true
            else
              match Date_parse E (default "" dateHeader) with
              | Some cachedDate =>
                  let cacheAge := Date_now E - cachedDate in
                  ICON_CACHE_DURATION <? cacheAge
              | None => false
              end
      end
  end.

(** [getIconFromCache] (lines 139-162). *)
Definition getIconFromCache (E : Env) (request : Request) : M (option Response) :=
  try_catch
    (cache <~ caches_open ICON_CACHE_NAME ;;
     cachedResponse <~ cache_match cache request ;;
     match cachedResponse with
     | None => ret None
     | Some r =>
         if isCacheExpired E (Some r) then
           cache_delete cache request ;;; ret None
         else ret (Some r)
     end)
    (fun error => console_log (ErrorGetIconFromCache error) ;;; ret None).

Definition imageTypes : list string :=
  [ "image/png"; "image/jpeg"; "image/gif"; "image/webp"; "image/svg+xml";
    "image/x-icon"; "image/vnd.microsoft.icon"; "image/ico" ].

(** [isImageResponse] (lines 167-190). *)
Definition isImageResponse (response : option Response) : bool :=
  match response with
  | None => false
  | Some r =>
      match resp_headers r with
      | None => false
      | Some headers =>
          let contentType := headers_get headers "Content-Type" in
          if negb (truthy contentType) then false
          else existsb (fun type => includes (default "" contentType) type) imageTypes
      end
  end.

(** [response.headers?.get('Content-Type')] *)
Definition content_type_of (r : Response) : option string :=
  match resp_headers r with
  | Some headers => headers_get headers "Content-Type"
  | None => None
  end.

(** [cacheIcon] (lines 195-210).  [response.clone()] of a response whose
    body was not read yields an equal response. *)
Definition cacheIcon (request : Request) (response : Response) : M unit :=
  try_catch
    (if negb (isImageResponse (Some response)) then
       console_log (WarnNotImage (req_url request) (content_type_of response))
     else
       cache <~ caches_open ICON_CACHE_NAME ;;
       let responseToCache := response in
       cache_put cache request responseToCache)
    (fun error => console_log (ErrorCacheIcon error)).

(** The status test of lines 292 and 297. *)
Definition status_cacheable (r : Response) : bool :=
  (200 <=? resp_status r) && (resp_status r <? 400).

(** The placeholder of lines 320-325: [new Response(body, { headers })]
    has status 200 and an empty URL. *)
Definition placeholder : Response :=
  {| resp_url := "";
     resp_status := 200;
     resp_headers := Some [("Content-Type", "image/png")];
     resp_body := "iVBORw0KGgoAAAANSUhEUgAAAAEAAAABCAYAAAAfFcSJAAAADUlEQVR42mNkYPhfDwAChAI9jU76/gAAAABJRU5ErkJggg==" |}.

(** What the handler does with a network response (lines 287-307). *)
Definition handle_response (originalUrl : string) (cacheKey : Request)
    (networkResponse : Response) : M Response :=
  (if truthy (Some (resp_url networkResponse))
      && negb (String.eqb (resp_url networkResponse) originalUrl)
   then
     saveRedirectMapping originalUrl (resp_url networkResponse) ;;;
     let finalCacheKey := new_Request (resp_url networkResponse) in
     if status_cacheable networkResponse
     then cacheIcon finalCacheKey networkResponse
     else ret tt
   else
     if status_cacheable networkResponse
     then cacheIcon cacheKey networkResponse
     else ret tt) ;;;
  (if negb (resp_ok networkResponse)
   then console_log (WarnStatus originalUrl (resp_status networkResponse))
   else ret tt) ;;;
  ret networkResponse.

(** The body of the handler's [try] (lines 260-307).  [fetch] resolves
    with a response or rejects, so the emptiness test of line 283 never
    fires. *)
Definition handle_try (E : Env) (originalUrl : string) (cacheKey : Request) : M Response :=
  cachedResponse <~ getIconFromCache E cacheKey ;;
  match cachedResponse with
  | Some r => ret r
  | None =>
      networkResponse <~
        try_catch
          (fetch E (FetchFollow originalUrl))
          (fun fetchError =>
             console_log (ErrorFetch originalUrl fetchError) ;;; throw fetchError) ;;
      handle_response originalUrl cacheKey networkResponse
  end.

(** The handler's [catch] (lines 308-326). *)
Definition handle_catch (originalUrl : string) (cacheKey : Request) (error : JsError)
  : M Response :=
  console_log (ErrorGetIcon originalUrl error) ;;;
  cachedResponse <~ caches_match cacheKey ;;
  match cachedResponse with
  | Some r => ret r
  | None =>
      console_log (WarnPlaceholder originalUrl) ;;;
      ret placeholder
  end.

(** The [fetch] event handler (lines 240-329): the promise handed to
    [event.respondWith]. *)
Definition handle (E : Env) (request : Request) : M Response :=
  isIcon <~ isIconRequest (req_url request) ;;
  if negb isIcon then
    fetch E (FetchRequest request)
  else
    let originalUrl := req_url request in
    redirectUrl <~ resolveRedirectUrl originalUrl ;;
    let shouldUseRedirectUrl := negb (String.eqb redirectUrl originalUrl) in
    let cacheKey := if shouldUseRedirectUrl then new_Request redirectUrl else request in
    try_catch
      (handle_try E originalUrl cacheKey)
      (handle_catch originalUrl cacheKey).

(** [cleanExpiredCache] (lines 215-235), run on [activate]. *)
Fixpoint clean_loop (E : Env) (cache : string) (requests : list string) : M unit :=
  match requests with
  | [] => ret tt
  | url :: rest =>
      response <~ cache_match cache (new_Request url) ;;
      (match response with
       | Some r =>
           if isCacheExpired E (Some r) then cache_delete cache (new_Request url)
           else ret tt
       | None => ret tt
       end) ;;;
      clean_loop E cache rest
  end.

(** [cache.keys()] *)
Definition cache_keys (cache : string) : M (list string) :=
  fallible CacheError ;;;
  gets (fun w => match cs_lookup cache (caches w) with
                 | Some c => (map_to_list c).*1
                 | None => []
                 end).

Definition cleanExpiredCache (E : Env) : M unit :=
  try_catch
    (cache <~ caches_open ICON_CACHE_NAME ;;
     requests <~ cache_keys cache ;;
     clean_loop E cache requests)
    (fun error => console_log (ErrorCleanExpired error)).

(** * Properties of runs *)

(** [keeps R m]: every run of [m] takes a world to an [R]-related one,
    whether it returns or throws. *)
Definition keeps {A} (R : World -> World -> Prop) (m : M A) : Prop :=
  forall w, R w (snd (m w)).

(** [never_throws m]: every run of [m] returns a value. *)
Definition never_throws {A} (m : M A) : Prop :=
  forall w, exists a, fst (m w) = Ok a.

(** ** Parts of the world a run leaves alone *)

(** [same f]: the two worlds agree on the component [f]. *)
Definition same {X} (f : World -> X) : World -> World -> Prop :=
  fun w w' => f w = f w'.

(** The persistent stores: extension storage and the CacheStorage. *)
Definition stores (w : World) :=
  (chrome_storage w, cached_online_icon_urls w, icon_redirect_map w, caches w).

(** [fault_at n w]: the [n]-th coming storage or cache call rejects. *)
Definition fault_at (n : nat) (w : World) : bool := nth n (faults w) false.

(** The AllowList: the set of URLs stored under
    ['cached-online-icon-urls'] (empty when there is no extension
    storage or the stored value is not an array). *)
Definition AllowList (w : World) : gset string :=
  if chrome_storage w then
    match cached_online_icon_urls w with
    | Some urls => list_to_set urls
    | None => ∅
    end
  else ∅.

(** A redirect map without self-mappings. *)
Definition no_self_mapping (m : gmap string string) : Prop :=
  forall url final, m !! url = Some final -> url <> final.

(** The relation behind the invariant: a run started without
    self-mappings ends without self-mappings. *)
Definition keeps_no_self_mapping (w w' : World) : Prop :=
  no_self_mapping (icon_redirect_map w) -> no_self_mapping (icon_redirect_map w').

(** A run that starts with no fault pending ends with none pending. *)
Definition stays_fault_free (w w' : World) : Prop :=
  faults w = [] -> faults w' = [].

(** The part of the world the classification, the key resolution and the
    cache lookup never change: extension storage. *)
Definition storage (w : World) :=
  (chrome_storage w, cached_online_icon_urls w, icon_redirect_map w).

(** The response stored under [url] in the cache called [name]. *)
Definition cache_entry (w : World) (name url : string) : option Response :=
  match cs_lookup name (caches w) with
  | Some c => c !! url
  | None => None
  end.

(** Every entry of [w'] was already in [w] or passes [isImageResponse]. *)
Definition only_images_added (w w' : World) : Prop :=
  forall name url r,
    cache_entry w' name url = Some r ->
    cache_entry w name url = Some r \/ isImageResponse (Some r) = true.

(** Every entry of [w'] was already in [w]. *)
Definition nothing_added (w w' : World) : Prop :=
  forall name url r,
    cache_entry w' name url = Some r -> cache_entry w name url = Some r.

(** ** Vocabulary for the cache and the redirect map *)

(** The world once the cache [name] exists: what [caches.open] leaves. *)
Definition with_cache (name : string) (w : World) : World :=
  match cs_lookup name (caches w) with
  | Some _ => w
  | None => set_caches (caches w ++ [(name, ∅)]) w
  end.

(** The world after the next entry of the fault schedule was taken. *)
Definition pop_fault (w : World) : World :=
  match faults w with
  | [] => w
  | _ :: fs => set_faults fs w
  end.

(** The URL the stored redirect map resolves [url] to: the test of
    lines 77-83 on the map as stored. *)
Definition resolved_url (w : World) (url : string) : string :=
  match icon_redirect_map w !! url with
  | Some finalUrl => if String.eqb finalUrl "" then url else finalUrl
  | None => url
  end.

(** Every entry of [w] is still in [w'], unless it was an expired entry
    of the icon cache, which may be gone. *)
Definition only_expired_removed (E : Env) (w w' : World) : Prop :=
  forall name url r,
    cache_entry w name url = Some r ->
    cache_entry w' name url = Some r \/
    (name = ICON_CACHE_NAME /\ isCacheExpired E (Some r) = true /\
     cache_entry w' name url = None).

(** Every entry of [w'] that was not in [w] is the response the network
    gives for [url], sits in the icon cache, has a status in 200..399 and
    passes [isImageResponse]. *)
Definition only_network_response_added (E : Env) (url : string) (w w' : World) : Prop :=
  forall name key r,
    cache_entry w' name key = Some r ->
    cache_entry w name key = Some r \/
    (name = ICON_CACHE_NAME /\
     fetch_result E (FetchFollow url) = Some r /\
     status_cacheable r = true /\ isImageResponse (Some r) = true).

(** The two worlds differ at most in the entry [url] of the icon cache. *)
Definition same_but_entry (url : string) (w w' : World) : Prop :=
  forall name key,
    (name, key) <> (ICON_CACHE_NAME, url) ->
    cache_entry w' name key = cache_entry w name key.

(** [isCacheExpired] on what a cache lookup gives; no entry is not an
    expired entry. *)
Definition entry_expired (E : Env) (entry : option Response) : bool :=
  match entry with
  | Some r => isCacheExpired E (Some r)
  | None => false
  end.

(** What a sweep may do to the entries: remove expired entries of the
    icon cache, and nothing else. *)
Definition sweeps (E : Env) (w w' : World) : Prop :=
  only_expired_removed E w w' /\ nothing_added w w'.

(** Whether a cache lookup gave an entry. *)
Definition is_Some_bool {A} (o : option A) : bool :=
  match o with
  | Some _ => true
  | None => false
  end.

(** The test of line 288: the response has a URL and it is not the
    requested one. *)
Definition redirected_to (networkResponse : Response) (originalUrl : string) : bool :=
  negb (String.eqb (resp_url networkResponse) "")
  && negb (String.eqb (resp_url networkResponse) originalUrl).

(** The URL under which the handler stores a network response (lines
    288-300): its final URL after a redirect, otherwise the resolved
    key. *)
Definition storage_key (w : World) (originalUrl : string) (networkResponse : Response)
  : string :=
  if redirected_to networkResponse originalUrl then resp_url networkResponse
  else resolved_url w originalUrl.

(** ** The message listener of the background page *)

(** What the listener's [fetch] and the text decoders give: [page_fetch]
    is [None] when the transport fails; [decode_gbk] is
    [TextDecoder('gbk').decode] on the body, [decode_utf8] is
    [response.text()]. *)
Record TextEnv : Type := mkTextEnv {
  page_fetch : string -> option Response;
  decode_gbk : string -> string;
  decode_utf8 : string -> string
}.

(** The errors [fetchSearchSuggestions] rejects with. *)
Inductive SuggestError : Type :=
| HttpStatusError (status : Z)    (* new Error('HTTP error! status: ...') *)
| FetchRejected                   (* fetch itself rejected *)
| JsTypeError.                    (* TypeError: a member of null or undefined *)

(** What [fetchSearchSuggestions] resolves with. *)
Inductive Suggested : Type :=
| SuggestedText (text : string)
| SuggestedResponse (response : Response).

(** [response.headers.get(name)]; [None] stands for the TypeError raised
    when there are no headers. *)
Definition header_of (r : Response) (name : string) : option (option string) :=
  match resp_headers r with
  | Some headers => Some (headers_get headers name)
  | None => None
  end.

(** [fetchSearchSuggestions(url, returnResponse)] (lines 2-41 of the
    message script): the outcome of the promise, and the errors written
    with [console.error] by its [catch]. *)
Definition fetchSearchSuggestions (N : TextEnv) (url : string) (returnResponse : bool)
  : (Suggested + SuggestError) * list SuggestError :=
  match page_fetch N url with
  | None => (inr FetchRejected, [FetchRejected])
  | Some response =>
      if negb (resp_ok response) then
        (inr (HttpStatusError (resp_status response)), [])
      else if returnResponse then
        (inl (SuggestedResponse response), [])
      else
        match header_of response "content-type" with
        | Some (Some contentType) =>
            let needTrans :=
              existsb (fun i => includes contentType i) ["charset=gbk"; "charset=GBK"] in
            if needTrans then
              (inl (SuggestedText (decode_gbk N (resp_body response))), [])
            else
              (inl (SuggestedText (decode_utf8 N (resp_body response))), [])
        | _ => (inr JsTypeError, [JsTypeError])
        end
  end.

(** A message [{ type, payload: { url } }]. *)
Record Message : Type := mkMessage { msg_type : string; msg_url : string }.

(** The [data] of a reply: what [fetchSearchSuggestions] resolved with, a
    header value that may be null, or a text. *)
Inductive ReplyData : Type :=
| DataSuggested (value : Suggested)
| DataHeader (value : option string)
| DataText (text : string).

(** What [sendResponse] is called with. *)
Inductive Reply : Type :=
| ReplySuccess (data : ReplyData)      (* { success: true, data } *)
| ReplyFailure (error : SuggestError). (* { success: false, error } *)

(** The listener's result: the reply sent, if any; whether it returned
    [true] (the reply comes asynchronously); the URLs fetched. *)
Record Handled : Type := mkHandled {
  reply : option Reply;
  kept_open : bool;
  fetched : list string
}.

(** The [chrome.runtime.onMessage] listener (lines 44-107 of the message
    script).  An exception in a [then] callback goes to the [catch]
    after it. *)
Definition onMessage (N : TextEnv) (request : Message) : Handled :=
  if String.eqb (msg_type request) "FETCH_SEARCH_SUGGESTIONS" then
    let url := msg_url request in
    {| reply :=
         Some (match fst (fetchSearchSuggestions N url false) with
               | inl suggestions => ReplySuccess (DataSuggested suggestions)
               | inr error => ReplyFailure error
               end);
       kept_open := true;
       fetched := [url] |}
  else if String.eqb (msg_type request) "FETCH_NETWORK_SOURCE_CONTENT_TYPE" then
    let url := msg_url request in
    {| reply :=
         Some (match fst (fetchSearchSuggestions N url true) with
               | inl (SuggestedResponse res) =>
                   match header_of res "content-type" with
                   | Some value => ReplySuccess (DataHeader value)
                   | None => ReplyFailure JsTypeError
                   end
               | inl (SuggestedText text) => ReplyFailure JsTypeError
               | inr error => ReplyFailure error
               end);
       kept_open := true;
       fetched := [url] |}
  else if String.eqb (msg_type request) "FEICH_HOST_FAVICON" then
    let url := msg_url request in
    {| reply :=
         Some (match fst (fetchSearchSuggestions N url true) with
               | inl (SuggestedResponse res) =>
                   ReplySuccess (DataText (decode_utf8 N (resp_body res)))
               | inl (SuggestedText text) => ReplyFailure JsTypeError
               | inr error => ReplyFailure error
               end);
       kept_open := true;
       fetched := [url] |}
  else
    {| reply := None; kept_open := false; fetched := [] |}.

(** Whether a reply reports success. *)
Definition is_success (r : option Reply) : bool :=
  match r with
  | Some (ReplySuccess _) => true
  | _ => false
  end.

(** * Sample data *)

Definition icon_url : string := "https://example.com/favicon.ico".
Definition cdn_url : string := "https://cdn.example.com/fav.ico".
Definition page_url : string := "https://example.org/index.html".
Definition asset_url : string := "https://example.com/assets/logo.png".

Definition epoch_date : string := "Thu, 01 Jan 1970 00:00:00 GMT".

(** A date parser that knows one date. *)
Definition sample_Date_parse (s : string) : option Z :=
  if String.eqb s epoch_date then Some 0 else None.

(** An icon served at the epoch. *)
Definition epoch_icon (url : string) : Response :=
  {| resp_url := url; resp_status := 200;
     resp_headers := Some [("Content-Type", "image/x-icon"); ("Date", epoch_date)];
     resp_body := "icon" |}.

Definition not_found_at_cdn : Response :=
  {| resp_url := cdn_url; resp_status := 404;
     resp_headers := Some [("Content-Type", "text/html")];
     resp_body := "Not Found" |}.

Definition html_page (url : string) : Response :=
  {| resp_url := url; resp_status := 200;
     resp_headers := Some [("Content-Type", "text/html")];
     resp_body := "<html></html>" |}.

(** Status 200, type [text/html], with a parameter that happens to
    contain an image type. *)
Definition html_with_parameter : Response :=
  {| resp_url := icon_url; resp_status := 200;
     resp_headers := Some [("Content-Type", "text/html; x=image/png")];
     resp_body := "<html></html>" |}.

(** The network is down; the clock stands 30 days after the epoch. *)
Definition env_down : Env :=
  {| Date_now := 2592000000; Date_parse := sample_Date_parse;
     fetch_result := fun _ => None |}.

(** The same network, one millisecond later. *)
Definition env_down_later : Env :=
  {| Date_now := 2592000001; Date_parse := sample_Date_parse;
     fetch_result := fun _ => None |}.

(** Every request is answered by [r]. *)
Definition env_answer (r : Response) : Env :=
  {| Date_now := 2592000000; Date_parse := sample_Date_parse;
     fetch_result := fun _ => Some r |}.

(** [icon_url] is allow-listed; nothing is cached or recorded yet. *)
Definition fresh_world : World :=
  {| chrome_storage := true;
     cached_online_icon_urls := Some [icon_url];
     icon_redirect_map := ∅;
     caches := [];
     console := [];
     network_log := [];
     faults := [] |}.

(** [icon_url] is recorded as redirecting to [cdn_url], which in turn is
    recorded as redirecting to [page_url]; the icon cache holds an entry
    under [icon_url] only. *)
Definition redirected_world : World :=
  {| chrome_storage := true;
     cached_online_icon_urls := Some [icon_url];
     icon_redirect_map := {[ icon_url := cdn_url; cdn_url := page_url ]};
     caches := [(ICON_CACHE_NAME, {[ icon_url := epoch_icon icon_url ]})];
     console := [];
     network_log := [];
     faults := [] |}.

(** The icon cache holds an entry for [icon_url] that [env_down_later]
    finds expired; [fs] is the fault schedule. *)
Definition stale_world (fs : list bool) : World :=
  {| chrome_storage := true;
     cached_online_icon_urls := Some [icon_url];
     icon_redirect_map := ∅;
     caches := [(ICON_CACHE_NAME, {[ icon_url := epoch_icon icon_url ]})];
     console := [];
     network_log := [];
     faults := fs |}.

(** An image type followed by a parameter. *)
Definition png_with_charset : Response :=
  {| resp_url := icon_url; resp_status := 200;
     resp_headers := Some [("Content-Type", "image/png; charset=binary")];
     resp_body := "png" |}.

(** A page served as GBK. *)
Definition gbk_page : Response :=
  {| resp_url := page_url; resp_status := 200;
     resp_headers := Some [("Content-Type", "text/html; charset=gbk")];
     resp_body := "suggestions" |}.

(** Every fetch of the message listener is answered by [r]; the GBK
    decoder marks what it decoded. *)
Definition text_env (r : Response) : TextEnv :=
  {| page_fetch := fun _ => Some r;
     decode_gbk := fun body => ("gbk:" ++ body)%string;
     decode_utf8 := fun body => body |}.

Definition suggestions_message : Message :=
  {| msg_type := "FETCH_SEARCH_SUGGESTIONS"; msg_url := page_url |}.

(** The MIME type a Content-Type value declares: the part before the
    first semicolon, where the parameters start. *)
Fixpoint mime_type (contentType : string) : string :=
  match contentType with
  | EmptyString => EmptyString
  | String c rest =>
      if Ascii.eqb c ";" then EmptyString else String c (mime_type rest)
  end.

(** * Basic facts about runs *)

Lemma bind_Ok {A B} (m : M A) (k : A -> M B) w a w' :
  m w = (Ok a, w') -> bind m k w = k a w'.
Proof. intros H. unfold bind. now rewrite H. Qed.

Lemma run_eta {A} (m : M A) w : m w = (fst (m w), snd (m w)).
Proof. now destruct (m w). Qed.

Lemma never_throws_run {A} (m : M A) w :
  never_throws m -> exists a, m w = (Ok a, snd (m w)).
Proof.
  intros H. destruct (H w) as [a Ha]. exists a.
  rewrite (run_eta m w) at 1. now rewrite Ha.
Qed.

Section NeverThrows.
Context {A B : Type}.

Lemma nt_ret (a : A) : never_throws (ret a).
Proof. intros w. now exists a. Qed.

Lemma nt_gets (f : World -> A) : never_throws (gets f).
Proof. intros w. now exists (f w). Qed.

Lemma nt_bind (m : M A) (k : A -> M B) :
  never_throws m -> (forall a, never_throws (k a)) -> never_throws (bind m k).
Proof.
  intros Hm Hk w. destruct (never_throws_run m w Hm) as [a Ha].
  rewrite (bind_Ok _ _ _ _ _ Ha). apply Hk.
Qed.

Lemma nt_try_catch (m : M A) (h : JsError -> M A) :
  (forall e, never_throws (h e)) -> never_throws (try_catch m h).
Proof.
  intros Hh w. unfold try_catch. destruct (m w) as [[a|e] w'].
  - now exists a.
  - apply Hh.
Qed.
End NeverThrows.

Lemma nt_modify f : never_throws (modify f).
Proof. intros w. now exists tt. Qed.

Lemma nt_console_log l : never_throws (console_log l).
Proof. apply nt_modify. Qed.

Lemma nt_next_fault : never_throws next_fault.
Proof. intros w. unfold next_fault. destruct (faults w); eauto. Qed.

Create HintDb nothrow.
#[export] Hint Resolve nt_ret nt_gets nt_modify nt_console_log nt_next_fault : nothrow.
#[export] Hint Extern 2 (never_throws (bind _ _)) => apply nt_bind; [ | intros ? ] : nothrow.
#[export] Hint Extern 2 (never_throws (try_catch _ _)) => apply nt_try_catch; intros ? : nothrow.
#[export] Hint Extern 3 (never_throws (if ?b then _ else _)) => destruct b : nothrow.

Lemma nt_getCachedIconUrls : never_throws getCachedIconUrls.
Proof. unfold getCachedIconUrls. auto 10 with nothrow. Qed.

Lemma nt_getRedirectMap : never_throws getRedirectMap.
Proof. unfold getRedirectMap. auto 10 with nothrow. Qed.

Lemma nt_resolveRedirectUrl url : never_throws (resolveRedirectUrl url).
Proof.
  unfold resolveRedirectUrl. apply nt_bind; [apply nt_getRedirectMap|].
  intros m. destruct (truthy _); apply nt_ret.
Qed.

Lemma nt_saveRedirectMapping a b : never_throws (saveRedirectMapping a b).
Proof. unfold saveRedirectMapping. auto 10 with nothrow. Qed.

Lemma nt_isIconRequest url : never_throws (isIconRequest url).
Proof. unfold isIconRequest. auto with nothrow. Qed.

Lemma nt_getIconFromCache E request : never_throws (getIconFromCache E request).
Proof. unfold getIconFromCache. auto 10 with nothrow. Qed.

Lemma nt_cacheIcon request response : never_throws (cacheIcon request response).
Proof. unfold cacheIcon. auto with nothrow. Qed.

Lemma nt_cleanExpiredCache E : never_throws (cleanExpiredCache E).
Proof. unfold cleanExpiredCache. auto with nothrow. Qed.

#[export] Instance same_preorder {X} (f : World -> X) : PreOrder (same f).
Proof.
  split.
  - intros w. reflexivity.
  - intros w1 w2 w3 H12 H23. unfold same in *. congruence.
Qed.

Lemma fallible_run e w :
  fallible e w =
  match faults w with
  | [] => (Ok tt, w)
  | false :: fs => (Ok tt, set_faults fs w)
  | true :: fs => (Throw e, set_faults fs w)
  end.
Proof. unfold fallible, bind, next_fault. now destruct (faults w) as [|[|] fs]. Qed.

Lemma storage_set_redirect_map_run m w :
  storage_set_redirect_map m w =
  match faults w with
  | [] => (Ok tt, set_icon_redirect_map m w)
  | false :: fs => (Ok tt, set_icon_redirect_map m (set_faults fs w))
  | true :: fs => (Throw StorageError, set_faults fs w)
  end.
Proof.
  unfold storage_set_redirect_map, bind. rewrite fallible_run.
  now destruct (faults w) as [|[|] fs].
Qed.

Lemma getCachedIconUrls_run w :
  getCachedIconUrls w =
  if chrome_storage w then
    match faults w with
    | [] => (Ok (AllowList w), w)
    | false :: fs => (Ok (AllowList w), set_faults fs w)
    | true :: fs =>
        (Ok ∅, set_console (console w ++ [ErrorReadIconUrls StorageError])
                           (set_faults fs w))
    end
  else (Ok ∅, set_console (console w ++ [WarnNoChromeStorage]) w).
Proof.
  unfold getCachedIconUrls, AllowList, bind at 1, gets at 1.
  destruct (chrome_storage w); simpl; [|reflexivity].
  unfold try_catch, storage_get_icon_urls, bind. rewrite fallible_run.
  now destruct (faults w) as [|[|] fs].
Qed.

Lemma getRedirectMap_run w :
  getRedirectMap w =
  if chrome_storage w then
    match faults w with
    | [] => (Ok (icon_redirect_map w), w)
    | false :: fs => (Ok (icon_redirect_map w), set_faults fs w)
    | true :: fs =>
        (Ok ∅, set_console (console w ++ [ErrorReadRedirectMap StorageError])
                           (set_faults fs w))
    end
  else (Ok ∅, w).
Proof.
  unfold getRedirectMap, bind at 1, gets at 1.
  destruct (chrome_storage w); simpl; [|reflexivity].
  unfold try_catch, storage_get_redirect_map, bind. rewrite fallible_run.
  now destruct (faults w) as [|[|] fs].
Qed.

(** The map [getRedirectMap] returns is the stored one or the empty one,
    and reading it changes none of the stores. *)
Lemma getRedirectMap_result w :
  exists m w', getRedirectMap w = (Ok m, w') /\
               (m = icon_redirect_map w \/ m = ∅) /\ stores w' = stores w.
Proof.
  rewrite getRedirectMap_run.
  destruct (chrome_storage w) eqn:Hc; [|eauto 6].
  destruct (faults w) as [|[|] fs]; eauto 7.
Qed.


(** ** Relations every run respects *)

Section Keeps.
Context (R : World -> World -> Prop) `{!PreOrder R}.

Lemma keeps_ret {A} (a : A) : keeps R (ret a).
Proof. intros w. reflexivity. Qed.

Lemma keeps_throw {A} e : keeps R (@throw A e).
Proof. intros w. reflexivity. Qed.

Lemma keeps_gets {A} (f : World -> A) : keeps R (gets f).
Proof. intros w. reflexivity. Qed.

Lemma keeps_modify f : (forall w, R w (f w)) -> keeps R (modify f).
Proof. intros H w. apply H. Qed.

Lemma keeps_bind {A B} (m : M A) (k : A -> M B) :
  keeps R m -> (forall a, keeps R (k a)) -> keeps R (bind m k).
Proof.
  intros Hm Hk w. unfold bind. specialize (Hm w).
  destruct (m w) as [[a|e] w1]; simpl in *.
  - transitivity w1; [exact Hm | apply Hk].
  - exact Hm.
Qed.

(** The continuation may rely on a fact [P] about the value returned. *)
Lemma keeps_bind_val {A B} (P : A -> Prop) (m : M A) (k : A -> M B) :
  keeps R m ->
  (forall w a, fst (m w) = Ok a -> P a) ->
  (forall a, P a -> keeps R (k a)) ->
  keeps R (bind m k).
Proof.
  intros Hm HP Hk w. unfold bind. specialize (Hm w). specialize (HP w).
  destruct (m w) as [[a|e] w1]; simpl in *.
  - transitivity w1; [exact Hm | apply Hk, HP; reflexivity].
  - exact Hm.
Qed.

Lemma keeps_try_catch {A} (m : M A) (h : JsError -> M A) :
  keeps R m -> (forall e, keeps R (h e)) -> keeps R (try_catch m h).
Proof.
  intros Hm Hh w. unfold try_catch. specialize (Hm w).
  destruct (m w) as [[a|e] w1]; simpl in *.
  - exact Hm.
  - transitivity w1; [exact Hm | apply Hh].
Qed.

(** *** Runs that only log and consume faults *)

Hypothesis R_console : forall w c, R w (set_console c w).
Hypothesis R_faults : forall w b fs, faults w = b :: fs -> R w (set_faults fs w).

Lemma keeps_console_log l : keeps R (console_log l).
Proof. apply keeps_modify. intros w. apply R_console. Qed.

Lemma keeps_next_fault : keeps R next_fault.
Proof.
  intros w. unfold next_fault. destruct (faults w) eqn:Hf; simpl;
    [reflexivity | now apply (R_faults w b)].
Qed.

Lemma keeps_fallible e : keeps R (fallible e).
Proof.
  apply keeps_bind; [apply keeps_next_fault|].
  intros [|]; [apply keeps_throw | apply keeps_ret].
Qed.

Ltac keeps_step :=
  first [ apply keeps_ret | apply keeps_throw | apply keeps_gets
        | apply keeps_console_log | apply keeps_fallible
        | apply keeps_bind; [ | intros ? ]
        | apply keeps_try_catch; [ | intros ? ]
        | match goal with
          | |- keeps _ (if ?b then _ else _) => destruct b
          | |- keeps _ (match ?o with Some _ => _ | None => _ end) => destruct o
          end ].

Lemma keeps_getCachedIconUrls : keeps R getCachedIconUrls.
Proof. unfold getCachedIconUrls, storage_get_icon_urls. repeat keeps_step. Qed.

Lemma keeps_getRedirectMap : keeps R getRedirectMap.
Proof. unfold getRedirectMap, storage_get_redirect_map. repeat keeps_step. Qed.

Lemma keeps_resolveRedirectUrl url : keeps R (resolveRedirectUrl url).
Proof.
  unfold resolveRedirectUrl.
  apply keeps_bind; [apply keeps_getRedirectMap|]. intros m. repeat keeps_step.
Qed.

Lemma keeps_isIconRequest url : keeps R (isIconRequest url).
Proof.
  unfold isIconRequest.
  apply keeps_try_catch; [|intros; apply keeps_ret].
  destruct (includes url "/assets/"); [apply keeps_ret|].
  apply keeps_bind; [apply keeps_getCachedIconUrls|]. intros s. repeat keeps_step.
Qed.

Lemma keeps_cache_match cache request : keeps R (cache_match cache request).
Proof. unfold cache_match. repeat keeps_step. Qed.

Lemma keeps_caches_match request : keeps R (caches_match request).
Proof. unfold caches_match. repeat keeps_step. Qed.

Lemma keeps_handle_catch url key e : keeps R (handle_catch url key e).
Proof.
  unfold handle_catch.
  apply keeps_bind; [apply keeps_console_log|]. intros _.
  apply keeps_bind; [apply keeps_caches_match|]. intros r. repeat keeps_step.
Qed.

(** *** Runs that also write the redirect map *)

Section Redirect.
Variables originalUrl finalUrl : string.
Hypothesis R_redirect : forall w m,
  originalUrl <> finalUrl ->
  m = icon_redirect_map w \/ m = ∅ ->
  R w (set_icon_redirect_map (<[originalUrl := finalUrl]> m) w).

Lemma keeps_saveRedirectMapping :
  keeps R (saveRedirectMapping originalUrl finalUrl).
Proof.
  unfold saveRedirectMapping.
  destruct (String.eqb_spec originalUrl finalUrl) as [|Hne]; [apply keeps_ret|].
  apply keeps_bind; [apply keeps_gets|]. intros [|]; [|apply keeps_ret].
  apply keeps_try_catch; [|intros; apply keeps_console_log].
  intros w. unfold bind.
  destruct (getRedirectMap_result w) as (m & w1 & Hrun & Hm & Hst).
  rewrite Hrun. transitivity w1.
  { pose proof (keeps_getRedirectMap w) as H. now rewrite Hrun in H. }
  assert (Hm1 : m = icon_redirect_map w1 \/ m = ∅).
  { unfold stores in Hst. destruct Hm; [left|right]; congruence. }
  rewrite storage_set_redirect_map_run.
  destruct (faults w1) as [|[|] fs] eqn:Hf; simpl.
  - now apply R_redirect.
  - now apply (R_faults w1 true).
  - transitivity (set_faults fs w1); [now apply (R_faults w1 false)|].
    now apply (R_redirect (set_faults fs w1)).
Qed.
End Redirect.

(** *** Runs that also touch the icon cache *)

Hypothesis R_open : forall w name,
  cs_lookup name (caches w) = None ->
  R w (set_caches (caches w ++ [(name, ∅)]) w).
Hypothesis R_delete : forall w name url,
  R w (set_caches (cs_update name (delete url) (caches w)) w).

Lemma keeps_caches_open name : keeps R (caches_open name).
Proof.
  unfold caches_open.
  apply keeps_bind; [apply keeps_fallible|]. intros _.
  apply keeps_bind; [|intros; apply keeps_ret].
  apply keeps_modify. intros w.
  destruct (cs_lookup name (caches w)) eqn:H; [reflexivity | now apply R_open].
Qed.

Lemma keeps_cache_delete cache request : keeps R (cache_delete cache request).
Proof.
  unfold cache_delete.
  apply keeps_bind; [apply keeps_fallible|]. intros _.
  apply keeps_modify. intros w. apply R_delete.
Qed.

Lemma keeps_cache_keys cache : keeps R (cache_keys cache).
Proof. unfold cache_keys. repeat keeps_step. Qed.

Lemma keeps_getIconFromCache E request : keeps R (getIconFromCache E request).
Proof.
  unfold getIconFromCache.
  apply keeps_try_catch; [|intros; repeat keeps_step].
  apply keeps_bind; [apply keeps_caches_open|]. intros cache.
  apply keeps_bind; [apply keeps_cache_match|]. intros [r|]; [|apply keeps_ret].
  destruct (isCacheExpired E (Some r)); [|apply keeps_ret].
  apply keeps_bind; [apply keeps_cache_delete | intros; apply keeps_ret].
Qed.

Lemma keeps_clean_loop E cache requests : keeps R (clean_loop E cache requests).
Proof.
  induction requests as [|url rest IH]; cbn [clean_loop]; [apply keeps_ret|].
  apply keeps_bind; [apply keeps_cache_match|]. intros response.
  apply keeps_bind; [|intros; exact IH].
  destruct response as [r|]; [|apply keeps_ret].
  destruct (isCacheExpired E (Some r)); [apply keeps_cache_delete | apply keeps_ret].
Qed.

Lemma keeps_cleanExpiredCache E : keeps R (cleanExpiredCache E).
Proof.
  unfold cleanExpiredCache.
  apply keeps_try_catch; [|intros; apply keeps_console_log].
  apply keeps_bind; [apply keeps_caches_open|]. intros cache.
  apply keeps_bind; [apply keeps_cache_keys|]. intros requests.
  apply keeps_clean_loop.
Qed.

Section Put.
Variable response : Response.
Hypothesis R_put : forall w name url,
  isImageResponse (Some response) = true ->
  R w (set_caches (cs_update name (insert url response) (caches w)) w).

Lemma keeps_cacheIcon request : keeps R (cacheIcon request response).
Proof.
  unfold cacheIcon.
  apply keeps_try_catch; [|intros; apply keeps_console_log].
  destruct (isImageResponse (Some response)) eqn:Himg; simpl;
    [|apply keeps_console_log].
  apply keeps_bind; [apply keeps_caches_open|]. intros cache.
  unfold cache_put. apply keeps_bind; [apply keeps_fallible|]. intros _.
  apply keeps_modify. intros w. now apply R_put.
Qed.
End Put.

(** *** The whole handler *)

Section Handle.
Variables (E : Env) (request : Request).
Hypothesis R_network : forall w l, R w (set_network_log l w).
Hypothesis R_redirect : forall w m finalUrl,
  req_url request <> finalUrl ->
  m = icon_redirect_map w \/ m = ∅ ->
  R w (set_icon_redirect_map (<[req_url request := finalUrl]> m) w).
Hypothesis R_put : forall w name url response,
  fetch_result E (FetchFollow (req_url request)) = Some response ->
  isImageResponse (Some response) = true ->
  R w (set_caches (cs_update name (insert url response) (caches w)) w).

Lemma keeps_fetch call : keeps R (fetch E call).
Proof.
  unfold fetch. apply keeps_bind; [apply keeps_modify; intros; apply R_network|].
  intros _. destruct (fetch_result E call); [apply keeps_ret | apply keeps_throw].
Qed.

Lemma keeps_handle_try cacheKey :
  keeps R (handle_try E (req_url request) cacheKey).
Proof.
  unfold handle_try.
  apply keeps_bind; [apply keeps_getIconFromCache|].
  intros [r|]; [apply keeps_ret|].
  apply (keeps_bind_val
           (fun nr => fetch_result E (FetchFollow (req_url request)) = Some nr)).
  - apply keeps_try_catch; [apply keeps_fetch|]. intros e. repeat keeps_step.
  - intros w nr. unfold try_catch, fetch, bind, modify, console_log, modify, throw.
    destruct (fetch_result E _); simpl; congruence.
  - intros nr Hnet. unfold handle_response.
    assert (Hput : forall key, keeps R (cacheIcon key nr)).
    { intros key. apply keeps_cacheIcon. intros. now apply R_put. }
    apply keeps_bind; [|intros; repeat keeps_step].
    destruct (_ && _);
      [|destruct (status_cacheable nr); [apply Hput | apply keeps_ret]].
    apply keeps_bind;
      [apply keeps_saveRedirectMapping; intros; now apply R_redirect|].
    intros _. destruct (status_cacheable nr); [apply Hput | apply keeps_ret].
Qed.

Lemma keeps_handle : keeps R (handle E request).
Proof.
  unfold handle.
  apply keeps_bind; [apply keeps_isIconRequest|]. intros isIcon.
  destruct isIcon; simpl; [|apply keeps_fetch].
  apply keeps_bind; [apply keeps_resolveRedirectUrl|]. intros redirectUrl.
  apply keeps_try_catch; [apply keeps_handle_try | intros; apply keeps_handle_catch].
Qed.
End Handle.
End Keeps.

Lemma isIconRequest_stores url w : stores (snd (isIconRequest url w)) = stores w.
Proof.
  symmetry. apply (keeps_isIconRequest (same stores)); intros; reflexivity.
Qed.

(** [isIconRequest] answers [true] only for an allow-listed URL outside
    the local asset paths, whatever the faults. *)
Lemma isIconRequest_true url w :
  fst (isIconRequest url w) = Ok true ->
  includes url "/assets/" = false /\ url ∈ AllowList w /\ chrome_storage w = true.
Proof.
  unfold isIconRequest, try_catch.
  destruct (includes url "/assets/"); [discriminate|].
  unfold bind. rewrite getCachedIconUrls_run.
  destruct (chrome_storage w) eqn:Hc; simpl.
  - destruct (faults w) as [|[|] fs]; simpl;
      try (rewrite bool_decide_eq_false_2 by set_solver; discriminate);
      case_bool_decide; simpl; intros; try discriminate; auto.
  - rewrite bool_decide_eq_false_2 by set_solver. discriminate.
Qed.

(** * Entry classifier *)

(** C9.  [isIconRequest url] answers [false] at once (no read, world
    untouched) when [url] contains the local-asset path ["/assets/"];
    otherwise, when the read of the AllowList succeeds, it answers
    whether [url] is a member of the AllowList; when that read fails it
    answers [false]; it never throws and leaves extension storage and
    the CacheStorage as they were. *)
Theorem isIconRequest_classifies (url : string) (w : World) :
  (includes url "/assets/" = true -> isIconRequest url w = (Ok false, w)) /\
  (includes url "/assets/" = false -> fault_at 0 w = false ->
   fst (isIconRequest url w) = Ok (bool_decide (url ∈ AllowList w))) /\
  (includes url "/assets/" = false -> fault_at 0 w = true ->
   fst (isIconRequest url w) = Ok false) /\
  (exists answer, fst (isIconRequest url w) = Ok answer) /\
  stores (snd (isIconRequest url w)) = stores w /\
  network_log (snd (isIconRequest url w)) = network_log w.
Proof.
  split; [|split; [|split; [|split; [|split]]]].
  - intros H. unfold isIconRequest, try_catch. now rewrite H.
  - intros H Hf. unfold isIconRequest, try_catch, bind. rewrite H.
    rewrite getCachedIconUrls_run. unfold fault_at in Hf.
    destruct (chrome_storage w) eqn:Hc.
    + destruct (faults w) as [|[|] fs]; simpl in *; try discriminate;
        now case_bool_decide.
    + simpl. unfold AllowList. rewrite Hc. now case_bool_decide.
  - intros H Hf. unfold isIconRequest, try_catch, bind. rewrite H.
    rewrite getCachedIconUrls_run. unfold fault_at in Hf.
    destruct (chrome_storage w) eqn:Hc.
    + destruct (faults w) as [|[|] fs]; simpl in *; try discriminate.
      rewrite bool_decide_eq_false_2 by set_solver. reflexivity.
    + simpl. rewrite bool_decide_eq_false_2 by set_solver. reflexivity.
  - apply nt_isIconRequest.
  - apply isIconRequest_stores.
  - symmetry. apply (keeps_isIconRequest (same network_log)); intros; reflexivity.
Qed.

(** * Redirect resolver *)

Lemma resolveRedirectUrl_run originalUrl w :
  chrome_storage w = true -> fault_at 0 w = false ->
  fst (resolveRedirectUrl originalUrl w) =
  Ok (match icon_redirect_map w !! originalUrl with
      | Some finalUrl => if String.eqb finalUrl "" then originalUrl else finalUrl
      | None => originalUrl
      end).
Proof.
  intros Hc Hf. unfold resolveRedirectUrl, bind. rewrite getRedirectMap_run, Hc.
  unfold fault_at in Hf.
  destruct (faults w) as [|[|] fs]; simpl in *; try discriminate;
    destruct (icon_redirect_map w !! originalUrl) as [v|]; simpl; try reflexivity;
    now destruct (String.eqb v "").
Qed.

(** C4.  With the redirect map readable, [resolveRedirectUrl] returns the
    final URL recorded for [originalUrl] (a URL, hence not the empty
    string) and returns [originalUrl] itself when nothing is recorded.
    The lookup is single-level: when the recorded final URL itself has a
    mapping to a further URL, that further URL is not what is returned.
    Resolving changes none of the stores. *)
Theorem resolveRedirectUrl_single_level (originalUrl : string) (w : World) :
  chrome_storage w = true ->
  fault_at 0 w = false ->
  (forall finalUrl,
     icon_redirect_map w !! originalUrl = Some finalUrl -> finalUrl <> "" ->
     fst (resolveRedirectUrl originalUrl w) = Ok finalUrl) /\
  (icon_redirect_map w !! originalUrl = None ->
   fst (resolveRedirectUrl originalUrl w) = Ok originalUrl) /\
  (forall finalUrl next,
     icon_redirect_map w !! originalUrl = Some finalUrl -> finalUrl <> "" ->
     icon_redirect_map w !! finalUrl = Some next -> next <> finalUrl ->
     fst (resolveRedirectUrl originalUrl w) <> Ok next) /\
  stores (snd (resolveRedirectUrl originalUrl w)) = stores w.
Proof.
  intros Hc Hf. pose proof (resolveRedirectUrl_run originalUrl w Hc Hf) as Hrun.
  split; [|split; [|split]].
  - intros finalUrl Hm Hne. rewrite Hrun, Hm.
    destruct (String.eqb_spec finalUrl ""); [contradiction | reflexivity].
  - intros Hm. now rewrite Hrun, Hm.
  - intros finalUrl next Hm Hne Hm' Hnext. rewrite Hrun, Hm.
    destruct (String.eqb_spec finalUrl ""); [contradiction|]. congruence.
  - symmetry. apply (keeps_resolveRedirectUrl (same stores)); intros; reflexivity.
Qed.

(** What a successful [saveRedirectMapping] does: with extension storage
    present and both the read and the write succeeding, the stored map
    becomes the old one with [originalUrl] bound to [finalUrl]. *)
Lemma saveRedirectMapping_run originalUrl finalUrl w :
  originalUrl <> finalUrl ->
  chrome_storage w = true ->
  fault_at 0 w = false -> fault_at 1 w = false ->
  saveRedirectMapping originalUrl finalUrl w =
  (Ok tt, set_icon_redirect_map (<[originalUrl := finalUrl]> (icon_redirect_map w))
            (set_faults (drop 2 (faults w)) w)).
Proof.
  intros Hne Hc H0 H1. unfold saveRedirectMapping.
  destruct (String.eqb_spec originalUrl finalUrl); [contradiction|].
  unfold bind at 1, gets at 1. rewrite Hc. simpl.
  unfold try_catch, bind. rewrite getRedirectMap_run, Hc. unfold fault_at in *.
  destruct (faults w) as [|[|] [|[|] fs]] eqn:Hfs; simpl in H0, H1; try discriminate;
    rewrite storage_set_redirect_map_run; cbn [faults set_faults]; rewrite ?Hfs;
    try reflexivity.
  all: destruct w; simpl in *; subst; reflexivity.
Qed.

Lemma no_self_mapping_insert originalUrl finalUrl m :
  originalUrl <> finalUrl -> no_self_mapping m ->
  no_self_mapping (<[originalUrl := finalUrl]> m).
Proof.
  intros Hne Hm url final. rewrite lookup_insert.
  case_decide; [intros [= <-]; now subst | apply Hm].
Qed.

Lemma no_self_mapping_empty : no_self_mapping ∅.
Proof. intros url final. now rewrite lookup_empty. Qed.

#[export] Instance keeps_no_self_mapping_preorder : PreOrder keeps_no_self_mapping.
Proof.
  split.
  - intros w H. exact H.
  - intros w1 w2 w3 H12 H23 H. apply H23, H12, H.
Qed.

Lemma keeps_no_self_mapping_write w m originalUrl finalUrl :
  originalUrl <> finalUrl ->
  m = icon_redirect_map w \/ m = ∅ ->
  keeps_no_self_mapping w (set_icon_redirect_map (<[originalUrl := finalUrl]> m) w).
Proof.
  intros Hne Hm H. simpl. apply no_self_mapping_insert; [exact Hne|].
  destruct Hm as [-> | ->]; [exact H | apply no_self_mapping_empty].
Qed.

(** Closes the side conditions of the [keeps] lemmas for
    [keeps_no_self_mapping]: only a write of the redirect map matters. *)
Ltac no_self_frame :=
  intros; first [ now apply keeps_no_self_mapping_write | exact (fun H => H) ].

(** C5.  [saveRedirectMapping] does nothing at all when the two URLs are
    equal; otherwise, when extension storage is present and the write
    succeeds, [originalUrl] is bound to [finalUrl] afterwards whatever
    was bound before, so the last write wins.  Consequently a redirect
    map without self-mappings stays so under [saveRedirectMapping],
    under the fetch handler and under the activation sweep, whatever
    fails on the way. *)
Theorem saveRedirectMapping_no_self :
  (forall url w, saveRedirectMapping url url w = (Ok tt, w)) /\
  (forall originalUrl finalUrl w,
     originalUrl <> finalUrl -> chrome_storage w = true -> fault_at 1 w = false ->
     icon_redirect_map (snd (saveRedirectMapping originalUrl finalUrl w)) !! originalUrl
     = Some finalUrl) /\
  (forall originalUrl finalUrl w,
     no_self_mapping (icon_redirect_map w) ->
     no_self_mapping (icon_redirect_map (snd (saveRedirectMapping originalUrl finalUrl w)))) /\
  (forall E request w,
     no_self_mapping (icon_redirect_map w) ->
     no_self_mapping (icon_redirect_map (snd (handle E request w)))) /\
  (forall E w,
     no_self_mapping (icon_redirect_map w) ->
     no_self_mapping (icon_redirect_map (snd (cleanExpiredCache E w)))).
Proof.
  split; [|split; [|split; [|split]]].
  - intros url w. unfold saveRedirectMapping. now rewrite String.eqb_refl.
  - intros a b w Hne Hc H1. unfold saveRedirectMapping.
    destruct (String.eqb_spec a b); [contradiction|].
    unfold bind at 1, gets at 1. rewrite Hc. simpl.
    unfold try_catch, bind. rewrite getRedirectMap_run, Hc. unfold fault_at in *.
    destruct (faults w) as [|[|] [|[|] fs]] eqn:Hfs; simpl in H1; try discriminate;
      rewrite storage_set_redirect_map_run; cbn [faults set_faults]; rewrite ?Hfs;
      simpl; apply lookup_insert_eq.
  - intros a b w.
    apply (keeps_saveRedirectMapping keeps_no_self_mapping); no_self_frame.
  - intros E request w.
    apply (keeps_handle keeps_no_self_mapping); no_self_frame.
  - intros E w.
    apply (keeps_cleanExpiredCache keeps_no_self_mapping); no_self_frame.
Qed.

(** C10.  A successful [saveRedirectMapping originalUrl finalUrl] with
    different URLs (storage present, read and write both succeeding)
    binds [originalUrl] to [finalUrl] and leaves the binding of every
    other key of the redirect map as it was. *)
Theorem saveRedirectMapping_frame (originalUrl finalUrl : string) (w : World) :
  originalUrl <> finalUrl ->
  chrome_storage w = true ->
  fault_at 0 w = false -> fault_at 1 w = false ->
  icon_redirect_map (snd (saveRedirectMapping originalUrl finalUrl w)) !! originalUrl
  = Some finalUrl /\
  forall url, url <> originalUrl ->
    icon_redirect_map (snd (saveRedirectMapping originalUrl finalUrl w)) !! url
    = icon_redirect_map w !! url.
Proof.
  intros Hne Hc H0 H1. rewrite saveRedirectMapping_run by assumption. simpl. split.
  - apply lookup_insert_eq.
  - intros url Hurl. now apply lookup_insert_ne.
Qed.

(** * Freshness evaluator *)

Lemma truthy_false v : truthy v = false <-> v = None \/ v = Some "".
Proof.
  destruct v as [s|]; simpl.
  - destruct (String.eqb_spec s ""); simpl; split; intros H;
      try discriminate; subst; auto.
    destruct H as [H|H]; [discriminate | congruence].
  - split; auto.
Qed.

(** The test of lines 118-121 in terms of the header's value. *)
Lemma no_store_test h :
  truthy (headers_get h "Cache-Control")
  && includes (default "" (headers_get h "Cache-Control")) "no-store" = true <->
  exists cc, headers_get h "Cache-Control" = Some cc /\ includes cc "no-store" = true.
Proof.
  destruct (headers_get h "Cache-Control") as [cc|]; simpl.
  - split.
    + intros [_ H]%andb_true_iff. eauto.
    + intros (cc' & [= <-] & H). rewrite H, andb_true_r.
      destruct (String.eqb_spec cc ""); [subst; discriminate | reflexivity].
  - split; [discriminate | intros (cc & H & _); discriminate].
Qed.

(** C2.  [isCacheExpired] answers [true] exactly when the response is
    missing, or its headers are missing, or its Cache-Control header
    contains [no-store], or it has no Date header (the lookup gives
    [null] or the empty string, which the test [!dateHeader] treats
    alike), or the time elapsed since the Date header's time is strictly
    greater than [ICON_CACHE_DURATION], which is 30 days in
    milliseconds.  In particular, for a response with a dated header and
    no [no-store], an age of exactly 30 days is not expired and an age
    of 30 days plus one millisecond is. *)
Theorem isCacheExpired_iff (E : Env) (response : option Response) :
  (isCacheExpired E response = true <->
   response = None \/
   (exists r, response = Some r /\ resp_headers r = None) \/
   (exists r h cc, response = Some r /\ resp_headers r = Some h /\
      headers_get h "Cache-Control" = Some cc /\ includes cc "no-store" = true) \/
   (exists r h, response = Some r /\ resp_headers r = Some h /\
      (headers_get h "Date" = None \/ headers_get h "Date" = Some "")) \/
   (exists r h d cachedDate, response = Some r /\ resp_headers r = Some h /\
      headers_get h "Date" = Some d /\ Date_parse E d = Some cachedDate /\
      Date_now E - cachedDate > ICON_CACHE_DURATION)) /\
  ICON_CACHE_DURATION = 30 * (24 * 60 * 60 * 1000) /\
  (forall r h d cachedDate,
     response = Some r -> resp_headers r = Some h ->
     (forall cc, headers_get h "Cache-Control" = Some cc -> includes cc "no-store" = false) ->
     headers_get h "Date" = Some d -> d <> "" -> Date_parse E d = Some cachedDate ->
     (Date_now E - cachedDate = ICON_CACHE_DURATION -> isCacheExpired E response = false) /\
     (Date_now E - cachedDate = ICON_CACHE_DURATION + 1 -> isCacheExpired E response = true)).
Proof.
  split; [|split; [reflexivity|]].
  - unfold isCacheExpired. destruct response as [r|]; [|intuition].
    destruct (resp_headers r) as [h|] eqn:Hh; [|split; eauto 6].
    destruct (truthy (headers_get h "Cache-Control") && _) eqn:Hcc.
    { split; [intros _|reflexivity]. apply no_store_test in Hcc.
      destruct Hcc as (cc & H1 & H2). do 2 right. left. eauto 8. }
    assert (Hcc' : forall cc, headers_get h "Cache-Control" = Some cc ->
                              includes cc "no-store" = false).
    { intros cc H. destruct (includes cc "no-store") eqn:Hi; [|reflexivity].
      assert (H' : true = false); [|discriminate].
      rewrite <- Hcc. symmetry. apply no_store_test. eauto. }
    destruct (truthy (headers_get h "Date")) eqn:Hd; simpl.
    2:{ split; [intros _|reflexivity]. apply truthy_false in Hd.
        do 3 right. left. eauto 6. }
    destruct (headers_get h "Date") as [d|] eqn:Hdate; [|discriminate]. simpl.
    split.
    + destruct (Date_parse E d) as [t|] eqn:Hp; [|discriminate].
      intros Hlt%Z.ltb_lt. do 4 right. exists r, h, d, t. repeat split; auto. lia.
    + intros [H|[(r' & [= <-] & H)|[(r' & h' & cc & [= <-] & H1 & H2 & H3)|
              [(r' & h' & [= <-] & H1 & H2)|(r' & h' & d' & t & [= <-] & H1 & H2 & H3 & H4)]]]].
      * discriminate.
      * congruence.
      * assert (h' = h) by congruence. subst h'.
        rewrite (Hcc' cc H2) in H3. discriminate.
      * assert (h' = h) by congruence. subst h'.
        destruct H2 as [H2|H2]; [congruence|].
        assert (d = "") by congruence. subst d. discriminate.
      * assert (h' = h) by congruence. subst h'.
        assert (d' = d) by congruence. subst d'.
        rewrite H3. apply Z.ltb_lt. lia.
  - intros r h d t -> Hh Hcc Hdate Hne Hp. unfold isCacheExpired. rewrite Hh.
    assert (Hcc' : truthy (headers_get h "Cache-Control")
                   && includes (default "" (headers_get h "Cache-Control")) "no-store"
                   = false).
    { destruct (headers_get h "Cache-Control") as [cc|] eqn:H; simpl; [|reflexivity].
      rewrite (Hcc cc eq_refl). apply andb_false_r. }
    rewrite Hcc', Hdate. simpl.
    destruct (String.eqb_spec d ""); [contradiction|]. simpl. rewrite Hp.
    split; intros ->.
    + apply Z.ltb_irrefl.
    + apply Z.ltb_lt. lia.
Qed.

(** * Fetch orchestrator *)

Lemma fetch_run E call w :
  fetch E call w =
  (match fetch_result E call with
   | Some r => Ok r
   | None => Throw TransportError
   end,
   set_network_log (network_log w ++ [call]) w).
Proof. unfold fetch, bind, modify. now destruct (fetch_result E call). Qed.

(** The handler first classifies; a request that is not an icon request
    is handed to the network as it is, an icon request goes on with its
    URL resolved. *)
Lemma handle_cases E request w :
  (exists w1,
     isIconRequest (req_url request) w = (Ok false, w1) /\
     handle E request w = fetch E (FetchRequest request) w1) \/
  (exists w1 redirectUrl w2 cacheKey,
     isIconRequest (req_url request) w = (Ok true, w1) /\
     resolveRedirectUrl (req_url request) w1 = (Ok redirectUrl, w2) /\
     req_url cacheKey = redirectUrl /\
     handle E request w =
     try_catch (handle_try E (req_url request) cacheKey)
               (handle_catch (req_url request) cacheKey) w2).
Proof.
  destruct (never_throws_run _ w (nt_isIconRequest (req_url request))) as [b Hb].
  unfold handle. rewrite (bind_Ok _ _ _ _ _ Hb). destruct b; simpl.
  - right.
    destruct (never_throws_run _ (snd (isIconRequest (req_url request) w))
                (nt_resolveRedirectUrl (req_url request))) as [u Hu].
    rewrite (bind_Ok _ _ _ _ _ Hu).
    eexists _, u, _, (if negb (String.eqb u (req_url request))
                      then new_Request u else request).
    repeat split; eauto.
    destruct (String.eqb_spec u (req_url request)); simpl; congruence.
  - left. eauto.
Qed.

(** A network response is handed back as it is, whatever the
    bookkeeping did; a status that is not ok leaves a warning as the last
    console entry.  No request is sent while doing so. *)
Lemma handle_response_run url key nr w :
  exists w',
    handle_response url key nr w = (Ok nr, w') /\
    network_log w' = network_log w /\
    (resp_ok nr = false ->
     last (console w') = Some (WarnStatus url (resp_status nr))).
Proof.
  unfold handle_response.
  set (book := if _ && _ then _ else _).
  assert (Hnt : never_throws book).
  { subst book. destruct (_ && _).
    - apply nt_bind; [apply nt_saveRedirectMapping|]. intros _.
      destruct (status_cacheable nr); [apply nt_cacheIcon | apply nt_ret].
    - destruct (status_cacheable nr); [apply nt_cacheIcon | apply nt_ret]. }
  assert (Hlog : keeps (same network_log) book).
  { subst book. destruct (_ && _).
    - apply keeps_bind; [typeclasses eauto| |].
      + apply keeps_saveRedirectMapping; try typeclasses eauto; intros; reflexivity.
      + intros _. destruct (status_cacheable nr);
          [apply keeps_cacheIcon; try typeclasses eauto; intros; reflexivity
          | apply keeps_ret; typeclasses eauto].
    - destruct (status_cacheable nr);
        [apply keeps_cacheIcon; try typeclasses eauto; intros; reflexivity
        | apply keeps_ret; typeclasses eauto]. }
  destruct (never_throws_run book w Hnt) as [[] Hrun].
  rewrite (bind_Ok _ _ _ _ _ Hrun). specialize (Hlog w). unfold same in Hlog.
  unfold bind, console_log, modify, ret.
  destruct (resp_ok nr); simpl.
  - eexists; repeat split; [symmetry; exact Hlog | discriminate].
  - eexists; repeat split; [symmetry; exact Hlog|].
    intros _. apply last_snoc.
Qed.

(** The [try] block either serves the cached response without touching
    the network, or sends exactly one redirect-following request and then
    throws (transport failure) or goes on with the response received. *)
Lemma handle_try_cases E url key w :
  (exists r w1,
     getIconFromCache E key w = (Ok (Some r), w1) /\
     handle_try E url key w = (Ok r, w1)) \/
  (exists w1,
     getIconFromCache E key w = (Ok None, w1) /\
     let w2 := set_network_log (network_log w1 ++ [FetchFollow url]) w1 in
     match fetch_result E (FetchFollow url) with
     | Some nr => handle_try E url key w = handle_response url key nr w2
     | None =>
         handle_try E url key w =
         (Throw TransportError,
          set_console (console w2 ++ [ErrorFetch url TransportError]) w2)
     end).
Proof.
  destruct (never_throws_run _ w (nt_getIconFromCache E key)) as [o Ho].
  unfold handle_try. rewrite (bind_Ok _ _ _ _ _ Ho). destruct o as [r|].
  - left. eauto.
  - right. eexists. split; [exact Ho|]. cbv zeta.
    destruct (fetch_result E (FetchFollow url)) as [nr|] eqn:Hnet;
      unfold bind at 1, try_catch; rewrite fetch_run, Hnet; reflexivity.
Qed.

Lemma getIconFromCache_network_log E key w :
  network_log (snd (getIconFromCache E key w)) = network_log w.
Proof.
  symmetry. apply (keeps_getIconFromCache (same network_log)); intros; reflexivity.
Qed.

Lemma resolveRedirectUrl_network_log url w :
  network_log (snd (resolveRedirectUrl url w)) = network_log w.
Proof.
  symmetry. apply (keeps_resolveRedirectUrl (same network_log)); intros; reflexivity.
Qed.

Lemma isIconRequest_network_log url w :
  network_log (snd (isIconRequest url w)) = network_log w.
Proof.
  symmetry. apply (keeps_isIconRequest (same network_log)); intros; reflexivity.
Qed.

Lemma app_singleton_neq {X} (l : list X) (x : X) : l <> (l ++ [x])%list.
Proof.
  intros H. apply (f_equal (@length X)) in H. rewrite length_app in H. simpl in H. lia.
Qed.

(** C6.  For a request whose URL is not in the AllowList, the handler
    sends exactly one network request, the plain [fetch(event.request)],
    hands back its outcome as it is (the response, or the rejection of a
    failed transport), and leaves extension storage (AllowList and
    redirect map) and the CacheStorage unchanged. *)
Theorem handle_pass_through (E : Env) (request : Request) (w : World) :
  req_url request ∉ AllowList w ->
  fst (handle E request w) =
    match fetch_result E (FetchRequest request) with
    | Some response => Ok response
    | None => Throw TransportError
    end /\
  network_log (snd (handle E request w)) = (network_log w ++ [FetchRequest request])%list /\
  icon_redirect_map (snd (handle E request w)) = icon_redirect_map w /\
  caches (snd (handle E request w)) = caches w /\
  stores (snd (handle E request w)) = stores w.
Proof.
  intros Hnot.
  destruct (handle_cases E request w)
    as [(w1 & Hicon & Hrun) | (w1 & u & w2 & key & Hicon & _)].
  - rewrite Hrun, fetch_run. simpl.
    pose proof (isIconRequest_stores (req_url request) w) as Hst.
    pose proof (isIconRequest_network_log (req_url request) w) as Hlog.
    rewrite Hicon in Hst, Hlog. simpl in Hst, Hlog.
    assert (Hst' : stores (set_network_log (network_log w1 ++ [FetchRequest request]) w1)
                   = stores w) by exact Hst.
    rewrite Hlog. repeat split; try exact Hst'; unfold stores in Hst; congruence.
  - exfalso. apply Hnot.
    apply (isIconRequest_true (req_url request) w). now rewrite Hicon.
Qed.

(** C8.  When the handler has sent its redirect-following request and the
    network answered with a response whose status is outside 200..299,
    the handler returns that very response (status included) and the
    last thing it wrote to the console is the status warning; it neither
    throws nor substitutes the placeholder. *)
Theorem handle_surfaces_status (E : Env) (request : Request) (w : World)
    (networkResponse : Response) :
  network_log (snd (handle E request w))
    = (network_log w ++ [FetchFollow (req_url request)])%list ->
  fetch_result E (FetchFollow (req_url request)) = Some networkResponse ->
  resp_ok networkResponse = false ->
  fst (handle E request w) = Ok networkResponse /\
  last (console (snd (handle E request w)))
    = Some (WarnStatus (req_url request) (resp_status networkResponse)).
Proof.
  intros Hlog Hnet Hok.
  destruct (handle_cases E request w)
    as [(w1 & Hicon & Hrun) | (w1 & u & w2 & key & Hicon & Hres & Hkey & Hrun)].
  { exfalso. rewrite Hrun, fetch_run in Hlog. simpl in Hlog.
    pose proof (isIconRequest_network_log (req_url request) w) as H1.
    rewrite Hicon in H1. simpl in H1. rewrite H1 in Hlog.
    apply app_inv_head in Hlog. discriminate. }
  assert (Hw2 : network_log w2 = network_log w).
  { pose proof (isIconRequest_network_log (req_url request) w) as H1.
    pose proof (resolveRedirectUrl_network_log (req_url request) w1) as H2.
    rewrite Hicon in H1. rewrite Hres in H2. simpl in *. congruence. }
  rewrite Hrun in Hlog |- *. unfold try_catch in *.
  destruct (handle_try_cases E (req_url request) key w2)
    as [(r & w3 & Hget & Htry) | (w3 & Hget & Htry)].
  { exfalso. rewrite Htry in Hlog. simpl in Hlog.
    pose proof (getIconFromCache_network_log E key w2) as H3.
    rewrite Hget in H3. simpl in H3.
    apply (app_singleton_neq (network_log w) (FetchFollow (req_url request))).
    congruence. }
  cbv zeta in Htry. rewrite Hnet in Htry.
  destruct (handle_response_run (req_url request) key networkResponse
              (set_network_log (network_log w3 ++ [FetchFollow (req_url request)]) w3))
    as (w' & Hresp & _ & Hwarn).
  rewrite Htry, Hresp. simpl. split; [reflexivity | now apply Hwarn].
Qed.

#[export] Instance stays_fault_free_preorder : PreOrder stays_fault_free.
Proof.
  split.
  - intros w H. exact H.
  - intros w1 w2 w3 H12 H23 H. apply H23, H12, H.
Qed.

(** Closes the side conditions of the [keeps] lemmas for relations that
    only look at one component of the world. *)
Ltac frame_solver :=
  intros; try typeclasses eauto;
  first [ reflexivity
        | exact (fun H => H)
        | (intros Hnil; simpl in *; congruence) ].

Lemma handle_try_reaches_network E key w w3 :
  getIconFromCache E key w = (Ok None, w3) ->
  storage w3 = storage w /\ network_log w3 = network_log w /\
  (faults w = [] -> faults w3 = []).
Proof.
  intros Hget.
  pose proof (keeps_getIconFromCache (same storage)) as H1.
  pose proof (keeps_getIconFromCache (same network_log)) as H2.
  pose proof (keeps_getIconFromCache stays_fault_free) as H3.
  specialize (H1 ltac:(frame_solver) ltac:(frame_solver) ltac:(frame_solver)
                 ltac:(frame_solver) E key w).
  specialize (H2 ltac:(frame_solver) ltac:(frame_solver) ltac:(frame_solver)
                 ltac:(frame_solver) E key w).
  specialize (H3 ltac:(frame_solver) ltac:(frame_solver) ltac:(frame_solver)
                 ltac:(frame_solver) E key w).
  rewrite Hget in H1, H2, H3. simpl in *. unfold same in *. auto.
Qed.

Lemma handle_icon_prefix url w w1 redirectUrl w2 :
  isIconRequest url w = (Ok true, w1) ->
  resolveRedirectUrl url w1 = (Ok redirectUrl, w2) ->
  chrome_storage w = true /\ url ∈ AllowList w /\
  storage w2 = storage w /\ network_log w2 = network_log w /\
  caches w2 = caches w /\
  (faults w = [] -> faults w2 = []).
Proof.
  intros Hicon Hres.
  destruct (isIconRequest_true url w) as (_ & Hin & Hc); [now rewrite Hicon|].
  pose proof (keeps_isIconRequest (same stores) ltac:(frame_solver)
                ltac:(frame_solver) url w) as A1.
  pose proof (keeps_isIconRequest (same network_log) ltac:(frame_solver)
                ltac:(frame_solver) url w) as A2.
  pose proof (keeps_isIconRequest stays_fault_free ltac:(frame_solver)
                ltac:(frame_solver) url w) as A3.
  pose proof (keeps_resolveRedirectUrl (same stores) ltac:(frame_solver)
                ltac:(frame_solver) url w1) as B1.
  pose proof (keeps_resolveRedirectUrl (same network_log) ltac:(frame_solver)
                ltac:(frame_solver) url w1) as B2.
  pose proof (keeps_resolveRedirectUrl stays_fault_free ltac:(frame_solver)
                ltac:(frame_solver) url w1) as B3.
  rewrite Hicon in A1, A2, A3. rewrite Hres in B1, B2, B3.
  unfold same, stores, stays_fault_free, storage in *. simpl in *.
  repeat split; auto; congruence.
Qed.

(** With a final URL that differs from the requested one, the redirect
    map after [handle_response] is the one [saveRedirectMapping] leaves:
    no status test stands before the call, and nothing after it writes
    the map. *)
Lemma handle_response_redirect url key nr w :
  resp_url nr <> "" -> resp_url nr <> url ->
  icon_redirect_map (snd (handle_response url key nr w))
  = icon_redirect_map (snd (saveRedirectMapping url (resp_url nr) w)).
Proof.
  intros Hne Hdiff. unfold handle_response.
  assert (Hcond : truthy (Some (resp_url nr)) && negb (String.eqb (resp_url nr) url)
                  = true).
  { simpl. destruct (String.eqb_spec (resp_url nr) ""); [contradiction|].
    destruct (String.eqb_spec (resp_url nr) url); [contradiction | reflexivity]. }
  rewrite Hcond.
  destruct (never_throws_run _ w (nt_saveRedirectMapping url (resp_url nr)))
    as [[] Hsave].
  unfold bind at 1. unfold bind at 1. rewrite Hsave.
  set (w1 := snd (saveRedirectMapping url (resp_url nr) w)).
  match goal with
  | |- icon_redirect_map (snd (let (_, _) := ?m w1 in _)) = _ =>
      assert (Hm : keeps (same icon_redirect_map) m);
      [ | specialize (Hm w1); unfold same in Hm;
          destruct (m w1) as [[[]|e] w2] eqn:Hrun; simpl in Hm ]
  end.
  { destruct (status_cacheable nr);
      [apply keeps_cacheIcon | apply keeps_ret]; frame_solver. }
  - unfold bind, console_log, modify, ret. destruct (negb (resp_ok nr)); simpl; congruence.
  - simpl. congruence.
Qed.

(** C7.  Once the handler has sent its redirect-following request: if a
    response comes back whose final URL (not empty) differs from the
    requested URL, the handler runs [saveRedirectMapping] on the
    requested and the final URL, whatever the response's status (the
    redirect map afterwards is the one that call leaves, and with no
    storage fault it binds the requested URL to the final URL); if the
    transport fails, the redirect map is left as it was. *)
Theorem handle_records_redirect (E : Env) (request : Request) (w : World) :
  network_log (snd (handle E request w))
    = (network_log w ++ [FetchFollow (req_url request)])%list ->
  (forall networkResponse,
     fetch_result E (FetchFollow (req_url request)) = Some networkResponse ->
     resp_url networkResponse <> "" ->
     resp_url networkResponse <> req_url request ->
     (exists w1,
        chrome_storage w1 = true /\
        icon_redirect_map w1 = icon_redirect_map w /\
        icon_redirect_map (snd (handle E request w))
        = icon_redirect_map
            (snd (saveRedirectMapping (req_url request) (resp_url networkResponse) w1))) /\
     (faults w = [] ->
      icon_redirect_map (snd (handle E request w))
      = <[req_url request := resp_url networkResponse]> (icon_redirect_map w))) /\
  (fetch_result E (FetchFollow (req_url request)) = None ->
   icon_redirect_map (snd (handle E request w)) = icon_redirect_map w).
Proof.
  intros Hlog.
  destruct (handle_cases E request w)
    as [(w1 & Hicon & Hrun) | (w1 & u & w2 & key & Hicon & Hres & Hkey & Hrun)].
  { exfalso. rewrite Hrun, fetch_run in Hlog. simpl in Hlog.
    pose proof (isIconRequest_network_log (req_url request) w) as H1.
    rewrite Hicon in H1. simpl in H1. rewrite H1 in Hlog.
    apply app_inv_head in Hlog. discriminate. }
  destruct (handle_icon_prefix _ _ _ _ _ Hicon Hres)
    as (Hc & _ & Hst2 & Hlog2 & _ & Hf2).
  rewrite Hrun in Hlog |- *. unfold try_catch in *.
  destruct (handle_try_cases E (req_url request) key w2)
    as [(r & w3 & Hget & Htry) | (w3 & Hget & Htry)].
  { exfalso. rewrite Htry in Hlog. simpl in Hlog.
    pose proof (getIconFromCache_network_log E key w2) as H3.
    rewrite Hget in H3. simpl in H3.
    apply (app_singleton_neq (network_log w) (FetchFollow (req_url request))).
    congruence. }
  destruct (handle_try_reaches_network _ _ _ _ Hget) as (Hst3 & Hlog3 & Hf3).
  cbv zeta in Htry. unfold storage in *.
  set (w4 := set_network_log (network_log w3 ++ [FetchFollow (req_url request)]) w3) in *.
  split.
  - intros nr Hnet Hne Hdiff. rewrite Hnet in Htry.
    destruct (handle_response_run (req_url request) key nr w4) as (w' & Hresp & _).
    rewrite Htry, Hresp.
    pose proof (handle_response_redirect (req_url request) key nr w4 Hne Hdiff) as Hmap.
    rewrite Hresp in Hmap. simpl in Hmap |- *.
    assert (Hc4 : chrome_storage w4 = true) by (simpl; congruence).
    assert (Hm4 : icon_redirect_map w4 = icon_redirect_map w) by (simpl; congruence).
    split.
    + exists w4. auto.
    + intros Hnil. rewrite Hmap.
      assert (Hf4 : faults w4 = []) by (simpl; auto).
      rewrite saveRedirectMapping_run; unfold fault_at; rewrite ?Hf4; auto.
      simpl. congruence.
  - intros Hnet. rewrite Hnet in Htry. rewrite Htry.
    pose proof (keeps_handle_catch (same icon_redirect_map) ltac:(frame_solver)
                  ltac:(frame_solver) (req_url request) key TransportError) as Hcatch.
    match goal with
    | |- icon_redirect_map (snd (?h ?wc)) = _ =>
        specialize (Hcatch wc); unfold same in Hcatch; rewrite <- Hcatch
    end.
    simpl. congruence.
Qed.

(** * Failure fallback *)

Lemma resolveRedirectUrl_result url w redirectUrl w' :
  resolveRedirectUrl url w = (Ok redirectUrl, w') ->
  redirectUrl = url \/ icon_redirect_map w !! url = Some redirectUrl.
Proof.
  unfold resolveRedirectUrl, bind.
  destruct (getRedirectMap_result w) as (m & w1 & Hrun & Hm & _). rewrite Hrun.
  destruct (m !! url) as [v|] eqn:Hv; simpl.
  - destruct (negb (String.eqb v "")); unfold ret; intros [= <- _]; auto.
    right. destruct Hm as [-> | ->]; [exact Hv | now rewrite lookup_empty in Hv].
  - unfold ret. intros [= <- _]. now left.
Qed.

(** The [catch] block: unless its cache lookup rejects, it returns the
    response [caches.match] finds for the key, or the placeholder. *)
Lemma handle_catch_run url key e w :
  fault_at 0 w = false ->
  exists w',
    handle_catch url key e w =
    (Ok (match cs_match (req_url key) (caches w) with
         | Some r => r
         | None => placeholder
         end), w').
Proof.
  intros Hf. unfold handle_catch, bind at 1, console_log, modify.
  unfold bind at 1, caches_match, bind at 1. rewrite fallible_run.
  unfold fault_at in Hf. cbn [faults set_console].
  destruct (faults w) as [|[|] fs]; simpl in Hf; try discriminate;
    unfold gets; cbn [caches set_console set_faults];
    destruct (cs_match (req_url key) (caches w)); eexists; reflexivity.
Qed.

(** C1 (amended).  On a transport failure of the handler's
    redirect-following request, the handler runs its [catch] block with
    the resolved cache key: the request URL itself, or the final URL the
    redirect map records for it (with no fault pending, the recorded
    final URL whenever one is recorded).  Unless the fallback lookup
    itself rejects, the handler then returns the response that
    [caches.match] finds for that key in the CacheStorage, freshness not
    being looked at, or, when there is none, the fixed placeholder, whose
    content type is [image/png]; with no fault pending it therefore
    always returns a response. *)
Theorem handle_transport_failure (E : Env) (request : Request) (w : World) :
  network_log (snd (handle E request w))
    = (network_log w ++ [FetchFollow (req_url request)])%list ->
  fetch_result E (FetchFollow (req_url request)) = None ->
  exists cacheKey wc,
    (req_url cacheKey = req_url request \/
     icon_redirect_map w !! req_url request = Some (req_url cacheKey)) /\
    (faults w = [] -> forall finalUrl,
       icon_redirect_map w !! req_url request = Some finalUrl -> finalUrl <> "" ->
       req_url cacheKey = finalUrl) /\
    handle E request w = handle_catch (req_url request) cacheKey TransportError wc /\
    caches (snd (handle E request w)) = caches wc /\
    (fault_at 0 wc = false ->
     fst (handle E request w)
     = Ok (match cs_match (req_url cacheKey) (caches wc) with
           | Some r => r
           | None => placeholder
           end)) /\
    (faults w = [] -> fault_at 0 wc = false) /\
    content_type_of placeholder = Some "image/png".
Proof.
  intros Hlog Hnet.
  destruct (handle_cases E request w)
    as [(w1 & Hicon & Hrun) | (w1 & u & w2 & key & Hicon & Hres & Hkey & Hrun)].
  { exfalso. rewrite Hrun, fetch_run in Hlog. simpl in Hlog.
    pose proof (isIconRequest_network_log (req_url request) w) as H1.
    rewrite Hicon in H1. simpl in H1. rewrite H1 in Hlog.
    apply app_inv_head in Hlog. discriminate. }
  destruct (handle_icon_prefix _ _ _ _ _ Hicon Hres)
    as (Hc & _ & Hst2 & Hlog2 & _ & Hf2).
  assert (Hst1 : stores w1 = stores w).
  { pose proof (isIconRequest_stores (req_url request) w) as H.
    now rewrite Hicon in H. }
  assert (Hf1 : faults w = [] -> faults w1 = []).
  { pose proof (keeps_isIconRequest stays_fault_free ltac:(frame_solver)
                  ltac:(frame_solver) (req_url request) w) as H.
    now rewrite Hicon in H. }
  rewrite Hrun in Hlog |- *. unfold try_catch in *.
  destruct (handle_try_cases E (req_url request) key w2)
    as [(r & w3 & Hget & Htry) | (w3 & Hget & Htry)].
  { exfalso. rewrite Htry in Hlog. simpl in Hlog.
    pose proof (getIconFromCache_network_log E key w2) as H3.
    rewrite Hget in H3. simpl in H3.
    apply (app_singleton_neq (network_log w) (FetchFollow (req_url request))).
    congruence. }
  destruct (handle_try_reaches_network _ _ _ _ Hget) as (Hst3 & Hlog3 & Hf3).
  cbv zeta in Htry. rewrite Hnet in Htry. rewrite Htry.
  eexists key, _. split; [|split; [|split; [reflexivity|split; [|split; [|split]]]]].
  - rewrite Hkey. destruct (resolveRedirectUrl_result _ _ _ _ Hres) as [H|H]; [now left|].
    right. unfold stores in Hst1. congruence.
  - intros Hnil finalUrl Hm Hne. rewrite Hkey.
    assert (Hrun1 := resolveRedirectUrl_run (req_url request) w1).
    unfold stores in Hst1. rewrite Hres in Hrun1. simpl in Hrun1.
    assert (Hm1 : icon_redirect_map w1 !! req_url request = Some finalUrl) by congruence.
    rewrite Hm1 in Hrun1.
    destruct (String.eqb_spec finalUrl ""); [contradiction|].
    assert (Ok u = Ok finalUrl) as [= ->]; [|reflexivity].
    apply Hrun1; [congruence|]. unfold fault_at. now rewrite (Hf1 Hnil).
  - symmetry.
    apply (keeps_handle_catch (same caches) ltac:(frame_solver) ltac:(frame_solver)).
  - intros Hf.
    match goal with
    | |- fst (handle_catch ?u ?k ?e ?wc) = _ =>
        destruct (handle_catch_run u k e wc Hf) as (w' & Hcatch); now rewrite Hcatch
    end.
  - intros Hnil. unfold fault_at. simpl. now rewrite (Hf3 (Hf2 Hnil)).
  - reflexivity.
Qed.

(** * Content-type gate *)

#[export] Instance only_images_added_preorder : PreOrder only_images_added.
Proof.
  split.
  - intros w name url r H. now left.
  - intros w1 w2 w3 H12 H23 name url r H.
    destruct (H23 _ _ _ H) as [H'|H']; [apply H12, H' | now right].
Qed.

#[export] Instance nothing_added_preorder : PreOrder nothing_added.
Proof.
  split.
  - intros w name url r H. exact H.
  - intros w1 w2 w3 H12 H23 name url r H. apply H12, H23, H.
Qed.

Lemma cs_lookup_update name' name f cs :
  cs_lookup name' (cs_update name f cs) =
  if String.eqb name' name then f <$> cs_lookup name cs else cs_lookup name' cs.
Proof.
  induction cs as [|[n c] cs IH]; simpl.
  - now destruct (String.eqb name' name).
  - destruct (String.eqb_spec n name) as [->|Hn]; simpl.
    + destruct (String.eqb_spec name' name) as [->|Hn'].
      * now rewrite String.eqb_refl.
      * destruct (String.eqb_spec name name'); [congruence | reflexivity].
    + destruct (String.eqb_spec n name') as [->|Hn'].
      * destruct (String.eqb_spec name' name); [congruence | reflexivity].
      * exact IH.
Qed.

Lemma cs_lookup_new name' name cs :
  cs_lookup name cs = None ->
  cs_lookup name' (cs ++ [(name, ∅)]) =
  match cs_lookup name' cs with
  | Some c => Some c
  | None => if String.eqb name name' then Some ∅ else None
  end.
Proof.
  intros Hnone. induction cs as [|[n c] cs IH]; simpl in *.
  - reflexivity.
  - destruct (String.eqb n name); [discriminate|].
    destruct (String.eqb n name'); [reflexivity | now apply IH].
Qed.

Lemma nothing_added_same_caches w w' : caches w' = caches w -> nothing_added w w'.
Proof. intros H name url r. unfold cache_entry. now rewrite H. Qed.

Lemma nothing_added_open w name :
  cs_lookup name (caches w) = None ->
  nothing_added w (set_caches (caches w ++ [(name, ∅)]) w).
Proof.
  intros Hnone name' url r. unfold cache_entry. simpl.
  rewrite (cs_lookup_new name' name _ Hnone).
  destruct (cs_lookup name' (caches w)); [auto|].
  destruct (String.eqb name name'); [|discriminate].
  now rewrite lookup_empty.
Qed.

Lemma nothing_added_delete w name url :
  nothing_added w (set_caches (cs_update name (delete url) (caches w)) w).
Proof.
  intros name' url' r. unfold cache_entry. simpl. rewrite cs_lookup_update.
  destruct (String.eqb_spec name' name) as [->|]; [|auto].
  destruct (cs_lookup name (caches w)); simpl; [|discriminate].
  rewrite lookup_delete. case_decide; [discriminate | auto].
Qed.

Lemma only_images_added_put w name url response :
  isImageResponse (Some response) = true ->
  only_images_added w
    (set_caches (cs_update name (insert url response) (caches w)) w).
Proof.
  intros Himg name' url' r. unfold cache_entry. simpl. rewrite cs_lookup_update.
  destruct (String.eqb_spec name' name) as [->|]; [|auto].
  destruct (cs_lookup name (caches w)); simpl; [|discriminate].
  rewrite lookup_insert. case_decide; [intros [= <-]; now right | auto].
Qed.

Lemma nothing_added_only_images w w' : nothing_added w w' -> only_images_added w w'.
Proof. intros H name url r Hr. left. now apply H. Qed.

(** [isImageResponse] is a substring test: the Content-Type value has to
    contain one of [imageTypes] somewhere. *)
Lemma isImageResponse_iff r :
  isImageResponse (Some r) = true <->
  exists ct type,
    content_type_of r = Some ct /\ In type imageTypes /\ includes ct type = true.
Proof.
  unfold isImageResponse, content_type_of.
  destruct (resp_headers r) as [h|].
  2:{ split; [discriminate | intros (ct & type & H & _); discriminate]. }
  destruct (headers_get h "Content-Type") as [ct|]; cbn [truthy negb default from_option].
  2:{ split; [discriminate | intros (ct & type & H & _); discriminate]. }
  destruct (String.eqb_spec ct "") as [->|Hne]; cbn [negb].
  - split; [discriminate|]. intros (ct & type & [= <-] & Hin & Hinc).
    simpl in Hin. repeat (destruct Hin as [<-|Hin]; [discriminate Hinc|]). contradiction.
  - rewrite existsb_exists. split.
    + intros (type & Hin & Hinc). eauto.
    + intros (ct' & type & [= <-] & Hin & Hinc). eauto.
Qed.

Lemma text_html_not_image r :
  content_type_of r = Some "text/html" -> isImageResponse (Some r) = false.
Proof.
  unfold isImageResponse, content_type_of.
  destruct (resp_headers r) as [h|]; [|discriminate].
  intros ->. reflexivity.
Qed.

(** Closes the side conditions of the [keeps] lemmas for the two
    relations on cache entries. *)
Ltac cache_frame :=
  intros;
  first [ now apply nothing_added_open
        | now apply nothing_added_delete
        | now apply only_images_added_put
        | now apply nothing_added_same_caches
        | apply nothing_added_only_images;
          first [ now apply nothing_added_open
                | now apply nothing_added_delete
                | now apply nothing_added_same_caches ] ].

(** C3 (amended).  Whatever a run of the handler adds to the
    CacheStorage passes [isImageResponse]: its Content-Type contains one
    of the eight strings of [imageTypes] as a substring (so a value with
    parameters, or any text around such a string, is admitted).  Hence a
    CacheStorage holding only such entries keeps holding only such
    entries.  In particular, when the network response's Content-Type is
    exactly [text/html], the run adds nothing to the CacheStorage,
    whatever the status.  The activation sweep adds nothing either. *)
Theorem cache_admits_only_images (E : Env) (request : Request) (w : World) :
  only_images_added w (snd (handle E request w)) /\
  (forall r,
     isImageResponse (Some r) = true <->
     exists ct type,
       content_type_of r = Some ct /\ In type imageTypes /\ includes ct type = true) /\
  ((forall name url r,
      cache_entry w name url = Some r -> isImageResponse (Some r) = true) ->
   forall name url r,
     cache_entry (snd (handle E request w)) name url = Some r ->
     isImageResponse (Some r) = true) /\
  (forall networkResponse,
     fetch_result E (FetchFollow (req_url request)) = Some networkResponse ->
     content_type_of networkResponse = Some "text/html" ->
     nothing_added w (snd (handle E request w))) /\
  nothing_added w (snd (cleanExpiredCache E w)).
Proof.
  assert (Hadd : only_images_added w (snd (handle E request w))).
  { apply (keeps_handle only_images_added); cache_frame. }
  split; [exact Hadd|split; [exact isImageResponse_iff|split; [|split]]].
  3:{ apply (keeps_cleanExpiredCache nothing_added); cache_frame. }
  - intros Hinv name url r Hr. destruct (Hadd _ _ _ Hr) as [H|H]; [|exact H].
    now apply (Hinv name url).
  - intros nr Hnet Hct. apply (keeps_handle nothing_added); try cache_frame.
    intros w0 name url response Hnet' Himg. exfalso.
    assert (response = nr) by congruence. subst response.
    rewrite (text_html_not_image nr Hct) in Himg. discriminate.
Qed.

(** * The theorems at the sample data *)

(** C1 as stated, refuted: with [icon_url] recorded as redirecting to
    [cdn_url] and the network down, the CacheStorage holds a response
    under the pre-resolution key [icon_url], yet the handler returns the
    placeholder: its fallback looks under the resolved key [cdn_url]. *)
Lemma fallback_ignores_pre_resolution_key :
  ~ (forall (E : Env) (request : Request) (w : World) (r : Response),
       network_log (snd (handle E request w))
         = (network_log w ++ [FetchFollow (req_url request)])%list ->
       fetch_result E (FetchFollow (req_url request)) = None ->
       cs_match (req_url request) (caches (snd (handle E request w))) = Some r ->
       fst (handle E request w) = Ok r).
Proof.
  intros H.
  specialize (H env_down (new_Request icon_url) redirected_world (epoch_icon icon_url)
                eq_refl eq_refl eq_refl).
  vm_compute in H. discriminate H.
Qed.

(** C1 (amended) at the sample data: the network is down and nothing is
    cached under the resolved key [cdn_url]. *)
Lemma handle_transport_failure_witness :
  fst (handle env_down (new_Request icon_url) redirected_world) = Ok placeholder.
Proof.
  destruct (handle_transport_failure env_down (new_Request icon_url) redirected_world
              eq_refl eq_refl)
    as (cacheKey & wc & _ & Hkey & _ & Hc & Hres & Hf & _).
  rewrite (Hres (Hf eq_refl)).
  rewrite (Hkey eq_refl cdn_url eq_refl ltac:(discriminate)).
  rewrite <- Hc. reflexivity.
Defined.

(** The stale entry the fallback is meant to serve is gone by the time
    the fallback runs: the lookup before the network request deletes an
    expired entry. *)
Example stale_entry_deleted_before_fallback :
  cache_entry (stale_world []) ICON_CACHE_NAME icon_url = Some (epoch_icon icon_url) /\
  isCacheExpired env_down_later (Some (epoch_icon icon_url)) = true /\
  fst (handle env_down_later (new_Request icon_url) (stale_world [])) = Ok placeholder.
Proof. repeat split; vm_compute; reflexivity. Qed.

(** When that deletion fails, the stale entry survives and the fallback
    serves it. *)
Example stale_entry_served_when_delete_fails :
  fst (handle env_down_later (new_Request icon_url)
         (stale_world [false; false; false; false; true]))
  = Ok (epoch_icon icon_url).
Proof. vm_compute. reflexivity. Qed.

(** C2 at the sample data: an age of exactly 30 days, then one
    millisecond more. *)
Lemma isCacheExpired_iff_witness :
  isCacheExpired env_down (Some (epoch_icon icon_url)) = false /\
  isCacheExpired env_down_later (Some (epoch_icon icon_url)) = true.
Proof.
  split.
  - destruct (isCacheExpired_iff env_down (Some (epoch_icon icon_url))) as (_ & _ & H).
    apply (H (epoch_icon icon_url) _ epoch_date 0 eq_refl eq_refl);
      [discriminate | reflexivity | discriminate | reflexivity | reflexivity].
  - destruct (isCacheExpired_iff env_down_later (Some (epoch_icon icon_url)))
      as (_ & _ & H).
    apply (H (epoch_icon icon_url) _ epoch_date 0 eq_refl eq_refl);
      [discriminate | reflexivity | discriminate | reflexivity | reflexivity].
Defined.

(** C3 as stated, refuted: a response of status 200 whose Content-Type is
    [text/html] with a parameter is written to the icon cache, although
    neither the header value nor its MIME type is one of [imageTypes]. *)
Lemma gate_admits_non_image_type :
  ~ (forall (E : Env) (request : Request) (w : World) (name url : string) (r : Response),
       cache_entry w name url = None ->
       cache_entry (snd (handle E request w)) name url = Some r ->
       exists ct, content_type_of r = Some ct /\ In (mime_type ct) imageTypes).
Proof.
  intros H.
  destruct (H (env_answer html_with_parameter) (new_Request icon_url) fresh_world
              ICON_CACHE_NAME icon_url html_with_parameter eq_refl eq_refl)
    as (ct & Hct & Hin).
  injection Hct as <-. vm_compute in Hin.
  repeat (destruct Hin as [Hin|Hin]; [discriminate Hin|]). exact Hin.
Qed.

(** C3 at the sample data: a 200 response of type [text/html] for the
    allow-listed [icon_url] adds nothing to the CacheStorage. *)
Lemma cache_admits_only_images_witness :
  nothing_added fresh_world
    (snd (handle (env_answer (html_page icon_url)) (new_Request icon_url) fresh_world)).
Proof.
  destruct (cache_admits_only_images (env_answer (html_page icon_url))
              (new_Request icon_url) fresh_world) as (_ & _ & _ & H & _).
  apply (H (html_page icon_url)); reflexivity.
Defined.

(** C4 at the sample data: [icon_url] resolves to [cdn_url], not to the
    [page_url] that [cdn_url] is mapped to; [page_url] has no mapping. *)
Lemma resolveRedirectUrl_single_level_witness :
  fst (resolveRedirectUrl icon_url redirected_world) = Ok cdn_url /\
  fst (resolveRedirectUrl page_url redirected_world) = Ok page_url /\
  fst (resolveRedirectUrl icon_url redirected_world) <> Ok page_url.
Proof.
  destruct (resolveRedirectUrl_single_level icon_url redirected_world eq_refl eq_refl)
    as (H1 & _ & H3 & _).
  destruct (resolveRedirectUrl_single_level page_url redirected_world eq_refl eq_refl)
    as (_ & H2 & _).
  split; [|split].
  - apply H1; [reflexivity | discriminate].
  - apply H2. reflexivity.
  - apply (H3 cdn_url page_url); [reflexivity | discriminate | reflexivity | discriminate].
Defined.

(** C5 at the sample data: an existing binding is overwritten, and the
    handler keeps the map free of self-mappings. *)
Lemma saveRedirectMapping_no_self_witness :
  icon_redirect_map (snd (saveRedirectMapping icon_url page_url redirected_world))
    !! icon_url = Some page_url /\
  no_self_mapping
    (icon_redirect_map
       (snd (handle (env_answer not_found_at_cdn) (new_Request icon_url) fresh_world))).
Proof.
  destruct saveRedirectMapping_no_self as (_ & H2 & _ & H4 & _). split.
  - apply H2; [discriminate | reflexivity | reflexivity].
  - apply H4. exact no_self_mapping_empty.
Defined.

(** C6 at the sample data: [page_url] is not allow-listed. *)
Lemma handle_pass_through_witness :
  fst (handle (env_answer (html_page page_url)) (new_Request page_url) fresh_world)
  = Ok (html_page page_url) /\
  network_log (snd (handle (env_answer (html_page page_url)) (new_Request page_url)
                      fresh_world))
  = [FetchRequest (new_Request page_url)].
Proof.
  assert (Hnot : req_url (new_Request page_url) ∉ AllowList fresh_world).
  { unfold AllowList. simpl. intros Hin%elem_of_union.
    destruct Hin as [Hin%elem_of_singleton | Hin%elem_of_empty];
      [discriminate Hin | exact Hin]. }
  destruct (handle_pass_through (env_answer (html_page page_url)) (new_Request page_url)
              fresh_world Hnot) as (H1 & H2 & _).
  split; [exact H1 | exact H2].
Defined.

(** C7 at the sample data: a 404 served from [cdn_url] for a request of
    [icon_url] is recorded all the same. *)
Lemma handle_records_redirect_witness :
  icon_redirect_map
    (snd (handle (env_answer not_found_at_cdn) (new_Request icon_url) fresh_world))
  = {[ icon_url := cdn_url ]}.
Proof.
  destruct (handle_records_redirect (env_answer not_found_at_cdn) (new_Request icon_url)
              fresh_world eq_refl) as (H & _).
  destruct (H not_found_at_cdn eq_refl ltac:(discriminate) ltac:(discriminate))
    as (_ & Hmap).
  exact (Hmap eq_refl).
Defined.

(** C8 at the sample data: the 404 is handed back and warned about. *)
Lemma handle_surfaces_status_witness :
  fst (handle (env_answer not_found_at_cdn) (new_Request icon_url) fresh_world)
  = Ok not_found_at_cdn /\
  last (console (snd (handle (env_answer not_found_at_cdn) (new_Request icon_url)
                        fresh_world)))
  = Some (WarnStatus icon_url 404).
Proof.
  exact (handle_surfaces_status (env_answer not_found_at_cdn) (new_Request icon_url)
           fresh_world not_found_at_cdn eq_refl eq_refl eq_refl).
Defined.

(** C9 at the sample data: a local asset, an allow-listed URL, and the
    same URL when the read of the AllowList fails. *)
Lemma isIconRequest_classifies_witness :
  isIconRequest asset_url fresh_world = (Ok false, fresh_world) /\
  fst (isIconRequest icon_url fresh_world) = Ok true /\
  fst (isIconRequest icon_url (stale_world [true])) = Ok false.
Proof.
  destruct (isIconRequest_classifies asset_url fresh_world) as (H1 & _).
  destruct (isIconRequest_classifies icon_url fresh_world) as (_ & H2 & _).
  destruct (isIconRequest_classifies icon_url (stale_world [true])) as (_ & _ & H3 & _).
  split; [|split].
  - apply H1. reflexivity.
  - rewrite H2 by reflexivity. reflexivity.
  - apply H3; reflexivity.
Defined.

(** C10 at the sample data: rebinding [icon_url] leaves the binding of
    [cdn_url] alone. *)
Lemma saveRedirectMapping_frame_witness :
  icon_redirect_map (snd (saveRedirectMapping icon_url page_url redirected_world))
    !! icon_url = Some page_url /\
  icon_redirect_map (snd (saveRedirectMapping icon_url page_url redirected_world))
    !! cdn_url = Some page_url.
Proof.
  destruct (saveRedirectMapping_frame icon_url page_url redirected_world
              ltac:(discriminate) eq_refl eq_refl eq_refl) as (H1 & H2).
  split; [exact H1|]. rewrite (H2 cdn_url ltac:(discriminate)). reflexivity.
Defined.

(** When the read of the redirect map fails and the write succeeds, the
    map written holds the new binding alone. *)
Example saveRedirectMapping_after_failed_read :
  icon_redirect_map
    (snd (saveRedirectMapping page_url icon_url
            (set_faults [true; false] redirected_world)))
  = {[ page_url := icon_url ]}.
Proof. vm_compute. reflexivity. Qed.

(** The placeholder's body is the base64 text of a PNG file, not the
    file: it starts with the letter [i], where a PNG stream starts with
    the byte 137. *)
Example placeholder_body_is_base64_text :
  exists c rest, resp_body placeholder = String c rest /\ c <> ascii_of_nat 137.
Proof. eexists _, _. split; [reflexivity | discriminate]. Qed.

(** * Further properties of the cache functions *)

Arguments isCacheExpired : simpl never.
Arguments isImageResponse : simpl never.

Lemma pop_fault_free w : faults w = [] -> pop_fault w = w.
Proof. intros H. unfold pop_fault. now rewrite H. Qed.

Lemma fault_at_free n w : faults w = [] -> fault_at n w = false.
Proof. intros H. unfold fault_at. rewrite H. now destruct n. Qed.

Lemma pop_fault_caches w : caches (pop_fault w) = caches w.
Proof. unfold pop_fault. now destruct (faults w). Qed.

Lemma pop_fault_entry w name url : cache_entry (pop_fault w) name url = cache_entry w name url.
Proof. unfold cache_entry. now rewrite pop_fault_caches. Qed.

Lemma fallible_pop e w :
  fallible e w = (if fault_at 0 w then Throw e else Ok tt, pop_fault w).
Proof.
  rewrite fallible_run. unfold fault_at, pop_fault.
  now destruct (faults w) as [|[|] fs].
Qed.

Lemma caches_open_pop name w :
  caches_open name w =
  if fault_at 0 w then (Throw CacheError, pop_fault w)
  else (Ok name, with_cache name (pop_fault w)).
Proof.
  unfold caches_open, bind. rewrite fallible_pop.
  destruct (fault_at 0 w); [reflexivity|].
  unfold modify, ret, with_cache. now destruct (cs_lookup name (caches (pop_fault w))).
Qed.

Lemma cache_match_pop cache request w :
  cache_match cache request w =
  if fault_at 0 w then (Throw CacheError, pop_fault w)
  else (Ok (cache_entry w cache (req_url request)), pop_fault w).
Proof.
  unfold cache_match, bind. rewrite fallible_pop.
  destruct (fault_at 0 w); [reflexivity|].
  unfold gets. now rewrite <- (pop_fault_entry w).
Qed.

Lemma cache_delete_pop cache request w :
  cache_delete cache request w =
  if fault_at 0 w then (Throw CacheError, pop_fault w)
  else (Ok tt, set_caches (cs_update cache (delete (req_url request))
                             (caches (pop_fault w))) (pop_fault w)).
Proof.
  unfold cache_delete, bind. rewrite fallible_pop. now destruct (fault_at 0 w).
Qed.

Lemma cache_put_pop cache request response w :
  cache_put cache request response w =
  if fault_at 0 w then (Throw CacheError, pop_fault w)
  else (Ok tt, set_caches (cs_update cache (insert (req_url request) response)
                             (caches (pop_fault w))) (pop_fault w)).
Proof.
  unfold cache_put, bind. rewrite fallible_pop. now destruct (fault_at 0 w).
Qed.

Lemma with_cache_entry name w name' url :
  cache_entry (with_cache name w) name' url = cache_entry w name' url.
Proof.
  unfold with_cache, cache_entry.
  destruct (cs_lookup name (caches w)) eqn:Hn; [reflexivity|]. simpl.
  rewrite (cs_lookup_new name' name _ Hn).
  destruct (cs_lookup name' (caches w)); [reflexivity|].
  destruct (String.eqb name name'); [apply lookup_empty | reflexivity].
Qed.

Lemma with_cache_exists name w : is_Some (cs_lookup name (caches (with_cache name w))).
Proof.
  unfold with_cache. destruct (cs_lookup name (caches w)) eqn:Hn.
  - rewrite Hn. eauto.
  - simpl. rewrite (cs_lookup_new name name _ Hn), Hn, String.eqb_refl. eauto.
Qed.

Lemma with_cache_faults name w : faults (with_cache name w) = faults w.
Proof. unfold with_cache. now destruct (cs_lookup name (caches w)). Qed.

Lemma with_cache_present name w :
  is_Some (cs_lookup name (caches w)) -> with_cache name w = w.
Proof. intros [c Hc]. unfold with_cache. now rewrite Hc. Qed.

Lemma cache_entry_exists w name url r :
  cache_entry w name url = Some r -> is_Some (cs_lookup name (caches w)).
Proof. unfold cache_entry. destruct (cs_lookup name (caches w)); [eauto | discriminate]. Qed.

(** The entries after [cache.delete] and [cache.put]. *)
Lemma cache_entry_delete w cache url name key :
  cache_entry (set_caches (cs_update cache (delete url) (caches w)) w) name key =
  if String.eqb name cache && String.eqb key url then None else cache_entry w name key.
Proof.
  unfold cache_entry. simpl. rewrite cs_lookup_update.
  destruct (String.eqb_spec name cache) as [->|]; simpl; [|reflexivity].
  destruct (cs_lookup cache (caches w)); simpl.
  - rewrite lookup_delete. destruct (String.eqb_spec key url) as [->|].
    + now rewrite decide_True.
    + now rewrite decide_False by congruence.
  - now destruct (String.eqb key url).
Qed.

Lemma cache_entry_put w cache url response name key :
  is_Some (cs_lookup cache (caches w)) ->
  cache_entry (set_caches (cs_update cache (insert url response) (caches w)) w) name key =
  if String.eqb name cache && String.eqb key url then Some response
  else cache_entry w name key.
Proof.
  intros [c Hc]. unfold cache_entry. simpl. rewrite cs_lookup_update.
  destruct (String.eqb_spec name cache) as [->|]; simpl; [|reflexivity].
  rewrite Hc. simpl. rewrite lookup_insert.
  destruct (String.eqb_spec key url) as [->|].
  - now rewrite decide_True.
  - now rewrite decide_False by congruence.
Qed.

Lemma cache_entry_console c w name key :
  cache_entry (set_console c w) name key = cache_entry w name key.
Proof. reflexivity. Qed.

(** Rewrites the entries of a world that differs from another one by
    console output, consumed faults or a created cache. *)
Ltac same_entries :=
  intros; unfold console_log, bind, modify, ret; cbn [fst snd];
  rewrite ?cache_entry_console, ?pop_fault_entry, ?with_cache_entry,
          ?cache_entry_console, ?pop_fault_entry, ?with_cache_entry.

(** What a run of [getIconFromCache] can do, whatever fails: it returns
    without touching any entry, and then a response it returns is the
    fresh entry of the icon cache under the request's URL; or it returns
    nothing after deleting that entry, which was expired. *)
Lemma getIconFromCache_cases E request w :
  exists o w',
    getIconFromCache E request w = (Ok o, w') /\
    (((forall name key, cache_entry w' name key = cache_entry w name key) /\
      (forall r, o = Some r ->
         cache_entry w ICON_CACHE_NAME (req_url request) = Some r /\
         isCacheExpired E (Some r) = false)) \/
     (o = None /\
      exists r,
        cache_entry w ICON_CACHE_NAME (req_url request) = Some r /\
        isCacheExpired E (Some r) = true /\
        forall name key,
          cache_entry w' name key =
          if String.eqb name ICON_CACHE_NAME && String.eqb key (req_url request)
          then None else cache_entry w name key)).
Proof.
  unfold getIconFromCache, try_catch, bind at 1. rewrite caches_open_pop.
  destruct (fault_at 0 w).
  { eexists None, _. split; [reflexivity|]. left. split.
    - same_entries. reflexivity.
    - discriminate. }
  set (w1 := with_cache ICON_CACHE_NAME (pop_fault w)).
  assert (H1 : forall name key, cache_entry w1 name key = cache_entry w name key).
  { intros. unfold w1. now rewrite with_cache_entry, pop_fault_entry. }
  unfold bind at 1. rewrite cache_match_pop.
  destruct (fault_at 0 w1).
  { eexists None, _. split; [reflexivity|]. left. split.
    - same_entries. apply H1.
    - discriminate. }
  destruct (cache_entry w1 ICON_CACHE_NAME (req_url request)) as [r|] eqn:Hr.
  2:{ eexists None, _. split; [reflexivity|]. left. split.
      - same_entries. apply H1.
      - discriminate. }
  rewrite H1 in Hr.
  destruct (isCacheExpired E (Some r)) eqn:Hexp.
  2:{ eexists (Some r), _. split; [reflexivity|]. left. split.
      - same_entries. apply H1.
      - intros r' [= <-]. auto. }
  unfold bind. rewrite cache_delete_pop.
  destruct (fault_at 0 (pop_fault w1)).
  { eexists None, _. split; [reflexivity|]. left. split.
    - same_entries. apply H1.
    - discriminate. }
  eexists None, _. split; [reflexivity|]. right. split; [reflexivity|].
  exists r. repeat split; auto.
  intros name key. unfold ret. cbn [fst snd]. rewrite cache_entry_delete.
  now rewrite !pop_fault_entry, H1.
Qed.

(** X1.  [getIconFromCache] never throws, and a response it returns is
    the entry stored under the request's URL in the icon cache, is not
    expired, and is still stored there afterwards; whatever fails, the
    only entry a run can remove is an expired one under that URL, and it
    adds none. *)
Theorem getIconFromCache_returns_fresh (E : Env) (request : Request) (w : World) :
  (exists o, fst (getIconFromCache E request w) = Ok o) /\
  (forall r,
     fst (getIconFromCache E request w) = Ok (Some r) ->
     isCacheExpired E (Some r) = false /\
     cache_entry w ICON_CACHE_NAME (req_url request) = Some r /\
     cache_entry (snd (getIconFromCache E request w)) ICON_CACHE_NAME (req_url request)
     = Some r) /\
  only_expired_removed E w (snd (getIconFromCache E request w)) /\
  same_but_entry (req_url request) w (snd (getIconFromCache E request w)) /\
  nothing_added w (snd (getIconFromCache E request w)).
Proof.
  destruct (getIconFromCache_cases E request w)
    as (o & w' & Hrun & [[Hsame Hfresh] | (-> & r & Hr & Hexp & Hdel)]);
    rewrite Hrun; simpl.
  - split; [eauto|]. split; [|split; [|split]].
    + intros r [= ->]. destruct (Hfresh r eq_refl) as [Hr Hf].
      now rewrite Hsame.
    + intros name key r Hr. left. now rewrite Hsame.
    + intros name key _. apply Hsame.
    + intros name key r. now rewrite Hsame.
  - split; [eauto|]. split; [discriminate|]. split; [|split].
    + intros name key r' Hr'. rewrite Hdel.
      destruct (String.eqb_spec name ICON_CACHE_NAME) as [->|]; simpl; [|now left].
      destruct (String.eqb_spec key (req_url request)) as [->|]; [|now left].
      right. assert (r' = r) by congruence. subst r'. auto.
    + intros name key Hne. rewrite Hdel.
      destruct (String.eqb_spec name ICON_CACHE_NAME) as [->|]; simpl; [|reflexivity].
      destruct (String.eqb_spec key (req_url request)) as [->|]; [|reflexivity].
      congruence.
    + intros name key r'. rewrite Hdel.
      destruct (String.eqb name ICON_CACHE_NAME && String.eqb key (req_url request));
        [discriminate | auto].
Qed.

(** The run of [getIconFromCache] when nothing fails. *)
Lemma getIconFromCache_fault_free E request w :
  faults w = [] ->
  getIconFromCache E request w =
  match cache_entry w ICON_CACHE_NAME (req_url request) with
  | Some r =>
      if isCacheExpired E (Some r)
      then (Ok None,
            set_caches (cs_update ICON_CACHE_NAME (delete (req_url request)) (caches w)) w)
      else (Ok (Some r), w)
  | None => (Ok None, with_cache ICON_CACHE_NAME w)
  end.
Proof.
  intros Hf. unfold getIconFromCache, try_catch, bind at 1.
  rewrite caches_open_pop, (fault_at_free 0 w Hf), (pop_fault_free w Hf).
  set (w1 := with_cache ICON_CACHE_NAME w).
  assert (Hf1 : faults w1 = []) by (unfold w1; now rewrite with_cache_faults).
  unfold bind at 1.
  rewrite cache_match_pop, (fault_at_free 0 w1 Hf1), (pop_fault_free w1 Hf1).
  unfold w1 at 1. rewrite with_cache_entry.
  destruct (cache_entry w ICON_CACHE_NAME (req_url request)) as [r|] eqn:Hr;
    [|reflexivity].
  assert (Hw1 : w1 = w).
  { apply with_cache_present. eapply cache_entry_exists, Hr. }
  rewrite Hw1. destruct (isCacheExpired E (Some r)); [|reflexivity].
  unfold bind. now rewrite cache_delete_pop, (fault_at_free 0 w Hf), (pop_fault_free w Hf).
Qed.

(** X2.  When nothing fails, [getIconFromCache] evicts on read: an
    expired entry under the request's URL is deleted from the icon cache
    and nothing is returned, all other entries staying as they are; a
    fresh entry is returned and the world is left untouched; with no
    entry nothing is returned and no entry changes. *)
Theorem getIconFromCache_evicts_on_read (E : Env) (request : Request) (w : World) :
  faults w = [] ->
  (forall r,
     cache_entry w ICON_CACHE_NAME (req_url request) = Some r ->
     isCacheExpired E (Some r) = true ->
     fst (getIconFromCache E request w) = Ok None /\
     cache_entry (snd (getIconFromCache E request w)) ICON_CACHE_NAME (req_url request)
     = None /\
     same_but_entry (req_url request) w (snd (getIconFromCache E request w))) /\
  (forall r,
     cache_entry w ICON_CACHE_NAME (req_url request) = Some r ->
     isCacheExpired E (Some r) = false ->
     getIconFromCache E request w = (Ok (Some r), w)) /\
  (cache_entry w ICON_CACHE_NAME (req_url request) = None ->
   fst (getIconFromCache E request w) = Ok None /\
   forall name key,
     cache_entry (snd (getIconFromCache E request w)) name key = cache_entry w name key).
Proof.
  intros Hf. rewrite (getIconFromCache_fault_free E request w Hf).
  split; [|split].
  - intros r Hr Hexp. rewrite Hr, Hexp. simpl. split; [reflexivity|]. split.
    + rewrite cache_entry_delete. now rewrite !String.eqb_refl.
    + intros name key Hne. rewrite cache_entry_delete.
      destruct (String.eqb_spec name ICON_CACHE_NAME) as [->|]; simpl; [|reflexivity].
      destruct (String.eqb_spec key (req_url request)) as [->|]; [|reflexivity].
      congruence.
  - intros r Hr Hexp. now rewrite Hr, Hexp.
  - intros Hr. rewrite Hr. simpl. split; [reflexivity|].
    intros. apply with_cache_entry.
Qed.

(** The run of [cacheIcon] on a response that passes the gate, when
    nothing fails. *)
Lemma cacheIcon_fault_free request response w :
  faults w = [] ->
  isImageResponse (Some response) = true ->
  cacheIcon request response w =
  (Ok tt,
   set_caches (cs_update ICON_CACHE_NAME (insert (req_url request) response)
                 (caches (with_cache ICON_CACHE_NAME w)))
              (with_cache ICON_CACHE_NAME w)).
Proof.
  intros Hf Himg. unfold cacheIcon, try_catch. rewrite Himg. cbn [negb].
  unfold bind. rewrite caches_open_pop, (fault_at_free 0 w Hf), (pop_fault_free w Hf).
  assert (Hf1 : faults (with_cache ICON_CACHE_NAME w) = [])
    by now rewrite with_cache_faults.
  now rewrite cache_put_pop, (fault_at_free 0 _ Hf1), (pop_fault_free _ Hf1).
Qed.

Lemma cacheIcon_entry request response w name key :
  faults w = [] ->
  isImageResponse (Some response) = true ->
  cache_entry (snd (cacheIcon request response w)) name key =
  if String.eqb name ICON_CACHE_NAME && String.eqb key (req_url request)
  then Some response else cache_entry w name key.
Proof.
  intros Hf Himg. rewrite (cacheIcon_fault_free _ _ _ Hf Himg). cbn [snd].
  rewrite cache_entry_put by apply with_cache_exists.
  now rewrite with_cache_entry.
Qed.

(** X3.  Storing then reading, when nothing fails: after [cacheIcon] has
    stored a response that passes the gate, [getIconFromCache] for the
    same request returns that very response if it is not expired, and
    otherwise returns nothing and removes it again (so a response
    without a Date header is stored but never served). *)
Theorem cacheIcon_then_getIconFromCache (E : Env) (request : Request)
    (response : Response) (w : World) :
  faults w = [] ->
  isImageResponse (Some response) = true ->
  fst (getIconFromCache E request (snd (cacheIcon request response w)))
  = Ok (if isCacheExpired E (Some response) then None else Some response) /\
  cache_entry
    (snd (getIconFromCache E request (snd (cacheIcon request response w))))
    ICON_CACHE_NAME (req_url request)
  = (if isCacheExpired E (Some response) then None else Some response).
Proof.
  intros Hf Himg.
  set (w1 := snd (cacheIcon request response w)).
  assert (Hf1 : faults w1 = []).
  { unfold w1. rewrite (cacheIcon_fault_free _ _ _ Hf Himg). cbn [snd].
    change (faults (with_cache ICON_CACHE_NAME w) = []). now rewrite with_cache_faults. }
  assert (He : cache_entry w1 ICON_CACHE_NAME (req_url request) = Some response).
  { unfold w1. rewrite (cacheIcon_entry _ _ _ _ _ Hf Himg). now rewrite !String.eqb_refl. }
  rewrite (getIconFromCache_fault_free E request w1 Hf1), He.
  destruct (isCacheExpired E (Some response)); cbn [fst snd]; split; auto.
  rewrite cache_entry_delete. now rewrite !String.eqb_refl.
Qed.

(** X4.  [cacheIcon] never throws and, whatever fails, touches no entry
    but the one under the request's URL in the icon cache, which
    afterwards is the old entry or the response given.  A response that
    does not pass the gate leaves the CacheStorage exactly as it was and
    the refusal is the last line on the console. *)
Theorem cacheIcon_frame (request : Request) (response : Response) (w : World) :
  fst (cacheIcon request response w) = Ok tt /\
  same_but_entry (req_url request) w (snd (cacheIcon request response w)) /\
  (cache_entry (snd (cacheIcon request response w)) ICON_CACHE_NAME (req_url request)
   = cache_entry w ICON_CACHE_NAME (req_url request) \/
   cache_entry (snd (cacheIcon request response w)) ICON_CACHE_NAME (req_url request)
   = Some response) /\
  (isImageResponse (Some response) = false ->
   caches (snd (cacheIcon request response w)) = caches w /\
   last (console (snd (cacheIcon request response w)))
   = Some (WarnNotImage (req_url request) (content_type_of response))).
Proof.
  unfold cacheIcon, try_catch.
  destruct (isImageResponse (Some response)) eqn:Himg; cbn [negb].
  2:{ unfold console_log, modify. cbn [fst snd].
      split; [reflexivity|]. split; [intros name key _; reflexivity|].
      split; [left; reflexivity|]. intros _. split; [reflexivity|].
      simpl. apply last_snoc. }
  unfold bind. rewrite caches_open_pop.
  destruct (fault_at 0 w).
  { cbn [fst snd]. split; [reflexivity|]. split; [|split; [|discriminate]].
    - intros name key _. same_entries. reflexivity.
    - left. same_entries. reflexivity. }
  rewrite cache_put_pop.
  set (w1 := with_cache ICON_CACHE_NAME (pop_fault w)).
  assert (H1 : forall name key, cache_entry w1 name key = cache_entry w name key).
  { intros. unfold w1. now rewrite with_cache_entry, pop_fault_entry. }
  destruct (fault_at 0 w1).
  { cbn [fst snd]. split; [reflexivity|]. split; [|split; [|discriminate]].
    - intros name key _. same_entries. apply H1.
    - left. same_entries. apply H1. }
  cbn [fst snd]. split; [reflexivity|].
  assert (Hex : is_Some (cs_lookup ICON_CACHE_NAME (caches (pop_fault w1)))).
  { rewrite pop_fault_caches. apply with_cache_exists. }
  split; [|split; [|discriminate]].
  - intros name key Hne. rewrite (cache_entry_put _ _ _ _ _ _ Hex).
    destruct (String.eqb_spec name ICON_CACHE_NAME) as [->|]; simpl;
      [|now rewrite pop_fault_entry, H1].
    destruct (String.eqb_spec key (req_url request)) as [->|];
      [congruence | now rewrite pop_fault_entry, H1].
  - right. rewrite (cache_entry_put _ _ _ _ _ _ Hex). now rewrite !String.eqb_refl.
Qed.

(** * The activation sweep *)

#[export] Instance sweeps_preorder E : PreOrder (sweeps E).
Proof.
  split.
  - intros w. split; intros name key r H; auto.
  - intros w1 w2 w3 [H12 A12] [H23 A23]. split.
    + intros name key r Hr. destruct (H12 _ _ _ Hr) as [H|(Hn & He & H)].
      * exact (H23 _ _ _ H).
      * right. repeat split; auto.
        destruct (cache_entry w3 name key) as [r'|] eqn:H3; [|reflexivity].
        apply A23 in H3. congruence.
    + intros name key r Hr. apply A12, A23, Hr.
Qed.

Lemma sweeps_same_entries E w w' :
  (forall name key, cache_entry w' name key = cache_entry w name key) -> sweeps E w w'.
Proof.
  intros H. split; intros name key r Hr.
  - left. now rewrite H.
  - now rewrite <- H.
Qed.

Lemma sweeps_delete E w url r :
  cache_entry w ICON_CACHE_NAME url = Some r ->
  isCacheExpired E (Some r) = true ->
  sweeps E w (set_caches (cs_update ICON_CACHE_NAME (delete url) (caches w)) w).
Proof.
  intros Hr Hexp. split; intros name key r'; rewrite cache_entry_delete.
  - intros Hr'.
    destruct (String.eqb_spec name ICON_CACHE_NAME) as [->|]; simpl; [|now left].
    destruct (String.eqb_spec key url) as [->|]; [|now left].
    right. assert (r' = r) by congruence. subst r'. auto.
  - destruct (String.eqb name ICON_CACHE_NAME && String.eqb key url);
      [discriminate | auto].
Qed.

(** Sequencing, with the continuation run in the world the first part
    left. *)
Lemma rel_bind (R : World -> World -> Prop) `{!PreOrder R} {A B}
    (m : M A) (k : A -> M B) w :
  R w (snd (m w)) ->
  (forall a w1, m w = (Ok a, w1) -> R w1 (snd (k a w1))) ->
  R w (snd (bind m k w)).
Proof.
  intros Hm Hk. unfold bind. destruct (m w) as [[a|e] w1] eqn:Hrun; simpl in *.
  - transitivity w1; [exact Hm | now apply Hk].
  - exact Hm.
Qed.

Lemma clean_loop_sweeps E requests :
  keeps (sweeps E) (clean_loop E ICON_CACHE_NAME requests).
Proof.
  induction requests as [|url rest IH]; cbn [clean_loop]; intros w.
  { apply sweeps_same_entries. reflexivity. }
  apply rel_bind; [typeclasses eauto| |].
  - rewrite cache_match_pop. apply sweeps_same_entries. intros.
    destruct (fault_at 0 w); cbn [snd]; apply pop_fault_entry.
  - intros a w1. rewrite cache_match_pop.
    destruct (fault_at 0 w); [discriminate|]. intros [= <- <-].
    apply rel_bind; [typeclasses eauto| |intros; apply IH].
    change (cache_entry w ICON_CACHE_NAME (req_url (new_Request url)))
      with (cache_entry w ICON_CACHE_NAME url).
    rewrite <- (pop_fault_entry w).
    set (w1 := pop_fault w).
    destruct (cache_entry w1 ICON_CACHE_NAME url) as [r|] eqn:Hr;
      [|apply sweeps_same_entries; reflexivity].
    destruct (isCacheExpired E (Some r)) eqn:Hexp;
      [|apply sweeps_same_entries; reflexivity].
    rewrite cache_delete_pop. destruct (fault_at 0 w1); cbn [snd].
    + apply sweeps_same_entries. intros. apply pop_fault_entry.
    + transitivity (pop_fault w1).
      * apply sweeps_same_entries. intros. apply pop_fault_entry.
      * apply sweeps_delete with r; [now rewrite pop_fault_entry | exact Hexp].
Qed.

(** X6.  The activation sweep never throws, sends no network request and
    leaves extension storage alone; whatever fails on the way, every
    entry of the CacheStorage is still there afterwards unless it was an
    expired entry of the icon cache, and no entry is added: fresh icons
    and the entries of other caches survive every sweep. *)
Theorem cleanExpiredCache_removes_only_expired (E : Env) (w : World) :
  fst (cleanExpiredCache E w) = Ok tt /\
  only_expired_removed E w (snd (cleanExpiredCache E w)) /\
  nothing_added w (snd (cleanExpiredCache E w)) /\
  (forall name key r,
     cache_entry w name key = Some r ->
     name <> ICON_CACHE_NAME \/ isCacheExpired E (Some r) = false ->
     cache_entry (snd (cleanExpiredCache E w)) name key = Some r) /\
  network_log (snd (cleanExpiredCache E w)) = network_log w /\
  storage (snd (cleanExpiredCache E w)) = storage w.
Proof.
  assert (Hs : sweeps E w (snd (cleanExpiredCache E w))).
  { unfold cleanExpiredCache, try_catch.
    match goal with
    | |- sweeps E w (snd (let (_, _) := ?m w in _)) =>
        assert (Hm : sweeps E w (snd (m w)))
    end.
    { apply rel_bind; [typeclasses eauto| |].
      - rewrite caches_open_pop. apply sweeps_same_entries. intros.
        destruct (fault_at 0 w); same_entries; reflexivity.
      - intros cache w1. rewrite caches_open_pop.
        destruct (fault_at 0 w); [discriminate|]. intros [= <- <-].
        apply rel_bind; [typeclasses eauto| |intros; apply clean_loop_sweeps].
        apply sweeps_same_entries. intros. unfold cache_keys, bind.
        rewrite fallible_pop. unfold gets.
        destruct (fault_at 0 _); same_entries; reflexivity. }
    destruct (bind _ _ w) as [[[]|e] w1]; cbn [snd] in *; [exact Hm|].
    transitivity w1; [exact Hm|]. apply sweeps_same_entries. reflexivity. }
  destruct Hs as [Hrem Hadd].
  split; [|split; [exact Hrem|split; [exact Hadd|split; [|split]]]].
  - destruct (nt_cleanExpiredCache E w) as [[] H]. exact H.
  - intros name key r Hr Hkeep. destruct (Hrem _ _ _ Hr) as [H|(Hn & He & _)]; [exact H|].
    destruct Hkeep; congruence.
  - symmetry. apply (keeps_cleanExpiredCache (same network_log)); frame_solver.
  - symmetry. apply (keeps_cleanExpiredCache (same storage)); frame_solver.
Qed.

Lemma clean_loop_fault_free E requests :
  forall w,
    faults w = [] ->
    exists w',
      clean_loop E ICON_CACHE_NAME requests w = (Ok tt, w') /\
      faults w' = [] /\
      forall name key,
        cache_entry w' name key =
        if String.eqb name ICON_CACHE_NAME && bool_decide (key ∈ requests)
           && entry_expired E (cache_entry w name key)
        then None else cache_entry w name key.
Proof.
  induction requests as [|url rest IH]; intros w Hf; cbn [clean_loop].
  { exists w. repeat split; auto. intros name key.
    rewrite bool_decide_eq_false_2 by apply not_elem_of_nil.
    now rewrite andb_false_r. }
  unfold bind at 1.
  rewrite cache_match_pop, (fault_at_free 0 w Hf), (pop_fault_free w Hf).
  change (req_url (new_Request url)) with url.
  assert (Hstep : exists w1,
            (match cache_entry w ICON_CACHE_NAME url with
             | Some r =>
                 if isCacheExpired E (Some r)
                 then cache_delete ICON_CACHE_NAME (new_Request url)
                 else ret tt
             | None => ret tt
             end) w = (Ok tt, w1) /\
            faults w1 = [] /\
            forall name key,
              cache_entry w1 name key =
              if String.eqb name ICON_CACHE_NAME && String.eqb key url
                 && entry_expired E (cache_entry w name key)
              then None else cache_entry w name key).
  { destruct (cache_entry w ICON_CACHE_NAME url) as [r|] eqn:Hr.
    - destruct (isCacheExpired E (Some r)) eqn:Hexp.
      + rewrite cache_delete_pop, (fault_at_free 0 w Hf), (pop_fault_free w Hf).
        eexists. split; [reflexivity|]. split; [exact Hf|].
        intros name key. rewrite cache_entry_delete.
        destruct (String.eqb_spec name ICON_CACHE_NAME) as [->|]; simpl; [|reflexivity].
        destruct (String.eqb_spec key url) as [->|]; simpl; [|reflexivity].
        rewrite Hr. unfold entry_expired. now rewrite Hexp.
      + exists w. split; [reflexivity|]. split; [exact Hf|].
        intros name key.
        destruct (String.eqb_spec name ICON_CACHE_NAME) as [->|]; simpl; [|reflexivity].
        destruct (String.eqb_spec key url) as [->|]; simpl; [|reflexivity].
        rewrite Hr. unfold entry_expired. now rewrite Hexp.
    - exists w. split; [reflexivity|]. split; [exact Hf|].
      intros name key.
      destruct (String.eqb_spec name ICON_CACHE_NAME) as [->|]; simpl; [|reflexivity].
      destruct (String.eqb_spec key url) as [->|]; simpl; [|reflexivity].
      now rewrite Hr. }
  destruct Hstep as (w1 & Hrun1 & Hf1 & He1).
  unfold bind. rewrite Hrun1.
  destruct (IH w1 Hf1) as (w' & Hrun & Hf' & He).
  exists w'. split; [exact Hrun|]. split; [exact Hf'|].
  intros name key. rewrite He, !He1.
  destruct (String.eqb_spec name ICON_CACHE_NAME) as [->|]; simpl; [|reflexivity].
  destruct (String.eqb_spec key url) as [->|]; simpl.
  - rewrite (bool_decide_eq_true_2 (url ∈ url :: rest)) by (apply elem_of_cons; now left).
    destruct (entry_expired E (cache_entry w ICON_CACHE_NAME url)) eqn:Hx; simpl.
    + now rewrite andb_false_r.
    + now rewrite Hx, andb_false_r.
  - assert (Hin : bool_decide (key ∈ url :: rest) = bool_decide (key ∈ rest)).
    { apply bool_decide_ext. rewrite elem_of_cons. intuition. }
    now rewrite Hin.
Qed.

Lemma cleanExpiredCache_run_fault_free E w :
  faults w = [] ->
  exists w',
    cleanExpiredCache E w = (Ok tt, w') /\
    forall name key,
      cache_entry w' name key =
      if String.eqb name ICON_CACHE_NAME && entry_expired E (cache_entry w name key)
      then None else cache_entry w name key.
Proof.
  intros Hf. unfold cleanExpiredCache, try_catch, bind at 1.
  rewrite caches_open_pop, (fault_at_free 0 w Hf), (pop_fault_free w Hf).
  set (w1 := with_cache ICON_CACHE_NAME w).
  assert (Hf1 : faults w1 = []) by (unfold w1; now rewrite with_cache_faults).
  unfold bind at 1, cache_keys, bind at 1.
  rewrite fallible_pop, (fault_at_free 0 w1 Hf1), (pop_fault_free w1 Hf1).
  unfold gets.
  destruct (with_cache_exists ICON_CACHE_NAME w) as [c Hc]. fold w1 in Hc.
  rewrite Hc.
  destruct (clean_loop_fault_free E (map_to_list c).*1 w1 Hf1) as (w' & Hrun & _ & He).
  rewrite Hrun. exists w'. split; [reflexivity|].
  intros name key. rewrite He. unfold w1. rewrite !with_cache_entry. fold w1.
  destruct (String.eqb_spec name ICON_CACHE_NAME) as [->|]; simpl; [|reflexivity].
  destruct (cache_entry w ICON_CACHE_NAME key) as [r|] eqn:Hr; simpl;
    [|now rewrite andb_false_r].
  rewrite bool_decide_eq_true_2; [reflexivity|].
  assert (Hr1 : c !! key = Some r).
  { rewrite <- (with_cache_entry ICON_CACHE_NAME w) in Hr. fold w1 in Hr.
    unfold cache_entry in Hr. now rewrite Hc in Hr. }
  apply list_elem_of_fmap. exists (key, r). split; [reflexivity|].
  now apply elem_of_map_to_list.
Qed.

(** X5.  When nothing fails, the activation sweep leaves in the icon
    cache exactly the entries that are not expired: every expired entry
    is gone, every other entry, in whatever cache, is as before. *)
Theorem cleanExpiredCache_fault_free (E : Env) (w : World) :
  faults w = [] ->
  fst (cleanExpiredCache E w) = Ok tt /\
  forall name key,
    cache_entry (snd (cleanExpiredCache E w)) name key =
    if String.eqb name ICON_CACHE_NAME && entry_expired E (cache_entry w name key)
    then None else cache_entry w name key.
Proof.
  intros Hf. destruct (cleanExpiredCache_run_fault_free E w Hf) as (w' & Hrun & He).
  rewrite Hrun. split; [reflexivity | exact He].
Qed.

(** * The ways a run of the handler can end *)

Lemma handle_catch_pop url key e w :
  handle_catch url key e w =
  let w1 := set_console (console w ++ [ErrorGetIcon url e]) w in
  if fault_at 0 w1 then (Throw CacheError, pop_fault w1)
  else
    match cs_match (req_url key) (caches w) with
    | Some r => (Ok r, pop_fault w1)
    | None =>
        (Ok placeholder,
         set_console (console (pop_fault w1) ++ [WarnPlaceholder url]) (pop_fault w1))
    end.
Proof.
  unfold handle_catch, bind at 1, console_log, modify. unfold bind at 1.
  unfold caches_match, bind at 1. rewrite fallible_pop. cbv zeta.
  destruct (fault_at 0 _); [reflexivity|]. unfold gets.
  rewrite pop_fault_caches. cbn [caches set_console].
  now destruct (cs_match (req_url key) (caches w)).
Qed.

Lemma handle_catch_outcome url key e w :
  network_log (snd (handle_catch url key e w)) = network_log w /\
  (fst (handle_catch url key e w) = Throw CacheError \/
   exists r, fst (handle_catch url key e w) = Ok r).
Proof.
  split.
  - symmetry. apply (keeps_handle_catch (same network_log)); frame_solver.
  - rewrite handle_catch_pop. cbv zeta.
    destruct (fault_at 0 _); [now left|]. right.
    destruct (cs_match (req_url key) (caches w)); eexists; reflexivity.
Qed.

(** Every run of the handler ends in one of four ways: the request was
    passed through to the network; a fresh entry of the icon cache was
    served without any network request; the response of the one
    redirect-following request was returned; or that request failed and
    the fallback ran. *)
Lemma handle_outcome E request w :
  (fst (isIconRequest (req_url request) w) = Ok false /\
   fst (handle E request w) =
     match fetch_result E (FetchRequest request) with
     | Some r => Ok r
     | None => Throw TransportError
     end /\
   network_log (snd (handle E request w))
   = (network_log w ++ [FetchRequest request])%list) \/
  (fst (isIconRequest (req_url request) w) = Ok true /\
   ((exists key r,
       fst (handle E request w) = Ok r /\
       (key = req_url request \/ icon_redirect_map w !! req_url request = Some key) /\
       cache_entry w ICON_CACHE_NAME key = Some r /\
       isCacheExpired E (Some r) = false /\
       network_log (snd (handle E request w)) = network_log w) \/
    (exists nr,
       fetch_result E (FetchFollow (req_url request)) = Some nr /\
       fst (handle E request w) = Ok nr /\
       network_log (snd (handle E request w))
       = (network_log w ++ [FetchFollow (req_url request)])%list) \/
    (fetch_result E (FetchFollow (req_url request)) = None /\
     network_log (snd (handle E request w))
     = (network_log w ++ [FetchFollow (req_url request)])%list /\
     (fst (handle E request w) = Throw CacheError \/
      exists r, fst (handle E request w) = Ok r)))).
Proof.
  destruct (handle_cases E request w)
    as [(w1 & Hicon & Hrun) | (w1 & u & w2 & key & Hicon & Hres & Hkey & Hrun)].
  { left. rewrite Hicon, Hrun, fetch_run. cbn [fst snd]. repeat split.
    pose proof (isIconRequest_network_log (req_url request) w) as H.
    rewrite Hicon in H. simpl in *. now rewrite H. }
  right. rewrite Hicon. split; [reflexivity|].
  destruct (handle_icon_prefix _ _ _ _ _ Hicon Hres)
    as (Hc & _ & Hst2 & Hlog2 & Hcaches2 & Hf2).
  assert (Hst1 : stores w1 = stores w).
  { pose proof (isIconRequest_stores (req_url request) w) as H.
    now rewrite Hicon in H. }
  rewrite Hrun. unfold try_catch.
  destruct (handle_try_cases E (req_url request) key w2)
    as [(r & w3 & Hget & Htry) | (w3 & Hget & Htry)].
  - left. rewrite Htry. cbn [fst snd].
    destruct (getIconFromCache_cases E key w2)
      as (o & w3' & Hrun3 & [[Hsame Hfresh] | (Hnone & _)]);
      rewrite Hget in Hrun3; [|congruence].
    injection Hrun3 as <- <-.
    destruct (Hfresh r eq_refl) as [Hentry Hexp].
    exists (req_url key), r. repeat split; auto.
    + rewrite Hkey. destruct (resolveRedirectUrl_result _ _ _ _ Hres) as [H|H];
        [now left|]. right. unfold stores in Hst1. congruence.
    + unfold cache_entry in *. now rewrite <- Hcaches2.
    + pose proof (getIconFromCache_network_log E key w2) as H.
      rewrite Hget in H. simpl in H. congruence.
  - right. destruct (handle_try_reaches_network _ _ _ _ Hget) as (_ & Hlog3 & _).
    cbv zeta in Htry.
    destruct (fetch_result E (FetchFollow (req_url request))) as [nr|] eqn:Hnet.
    + left. exists nr. split; [reflexivity|]. rewrite Htry.
      destruct (handle_response_run (req_url request) key nr
                  (set_network_log (network_log w3 ++ [FetchFollow (req_url request)]) w3))
        as (w' & Hresp & Hlog' & _).
      rewrite Hresp. cbn [fst snd]. split; [reflexivity|].
      rewrite Hlog'. simpl. congruence.
    + right. split; [reflexivity|]. rewrite Htry.
      match goal with
      | |- context [handle_catch ?a ?b ?c ?wc] =>
          destruct (handle_catch_outcome a b c wc) as [Hlog' Hout]
      end.
      split; [|exact Hout]. rewrite Hlog'. simpl. congruence.
Qed.

(** X7.  A run of the handler sends at most one network request: none
    when it serves a fresh entry of the icon cache (stored under the
    request's URL or under the final URL recorded for it), otherwise
    exactly one, the plain [fetch(event.request)] for a request that is
    not an icon request and the redirect-following one for an icon
    request. *)
Theorem handle_sends_at_most_one_request (E : Env) (request : Request) (w : World) :
  (network_log (snd (handle E request w)) = network_log w /\
   exists key r,
     fst (handle E request w) = Ok r /\
     (key = req_url request \/ icon_redirect_map w !! req_url request = Some key) /\
     cache_entry w ICON_CACHE_NAME key = Some r /\
     isCacheExpired E (Some r) = false) \/
  (network_log (snd (handle E request w))
   = (network_log w ++ [FetchRequest request])%list /\
   fst (isIconRequest (req_url request) w) = Ok false) \/
  (network_log (snd (handle E request w))
   = (network_log w ++ [FetchFollow (req_url request)])%list /\
   fst (isIconRequest (req_url request) w) = Ok true).
Proof.
  destruct (handle_outcome E request w)
    as [(Hicon & _ & Hlog) |
        (Hicon & [(key & r & Hres & Hkey & He & Hx & Hlog) |
                  [(nr & _ & _ & Hlog) | (_ & Hlog & _)]])].
  - right. left. auto.
  - left. split; [exact Hlog|]. exists key, r. auto.
  - right. right. auto.
  - right. right. auto.
Qed.

(** X8.  The handler rejects in two situations only: a request that is
    not an icon request whose plain fetch fails (the transport error is
    passed on), and an icon request whose network request fails and
    whose fallback lookup rejects as well.  So when the network answers
    it never rejects, whatever storage and cache calls fail; and an icon
    request never gets a rejection when no storage or cache call
    fails. *)
Theorem handle_rejects_only (E : Env) (request : Request) (w : World) :
  (forall e,
     fst (handle E request w) = Throw e ->
     (e = TransportError /\ fetch_result E (FetchRequest request) = None /\
      fst (isIconRequest (req_url request) w) = Ok false) \/
     (e = CacheError /\ fetch_result E (FetchFollow (req_url request)) = None /\
      fst (isIconRequest (req_url request) w) = Ok true)) /\
  (fetch_result E (FetchRequest request) <> None ->
   fetch_result E (FetchFollow (req_url request)) <> None ->
   exists r, fst (handle E request w) = Ok r) /\
  (faults w = [] ->
   fst (isIconRequest (req_url request) w) = Ok true ->
   exists r, fst (handle E request w) = Ok r).
Proof.
  assert (Hthrow : forall e,
     fst (handle E request w) = Throw e ->
     (e = TransportError /\ fetch_result E (FetchRequest request) = None /\
      fst (isIconRequest (req_url request) w) = Ok false) \/
     (e = CacheError /\ fetch_result E (FetchFollow (req_url request)) = None /\
      fst (isIconRequest (req_url request) w) = Ok true)).
  { intros e He.
    destruct (handle_outcome E request w)
      as [(Hicon & Hres & _) |
          (Hicon & [(key & r & Hres & _) |
                    [(nr & _ & Hres & _) | (Hnet & _ & [Hres | (r & Hres)])]])];
      rewrite Hres in He; try discriminate.
    - left. destruct (fetch_result E (FetchRequest request)); [discriminate|].
      injection He as <-. auto.
    - right. injection He as <-. auto. }
  split; [exact Hthrow|split].
  - intros H1 H2. destruct (fst (handle E request w)) as [r|e] eqn:Hres; [eauto|].
    destruct (Hthrow e eq_refl) as [(_ & H & _) | (_ & H & _)]; contradiction.
  - intros Hf Hicon.
    destruct (handle_cases E request w)
      as [(w1 & Hicon' & Hrun) | (w1 & u & w2 & key & Hicon' & Hres & Hkey & Hrun)].
    { rewrite Hicon' in Hicon. discriminate. }
    destruct (handle_icon_prefix _ _ _ _ _ Hicon' Hres) as (_ & _ & _ & _ & _ & Hf2).
    rewrite Hrun. unfold try_catch.
    destruct (handle_try_cases E (req_url request) key w2)
      as [(r & w3 & Hget & Htry) | (w3 & Hget & Htry)].
    { rewrite Htry. eauto. }
    destruct (handle_try_reaches_network _ _ _ _ Hget) as (_ & _ & Hf3).
    cbv zeta in Htry.
    destruct (fetch_result E (FetchFollow (req_url request))) as [nr|] eqn:Hnet;
      rewrite Htry.
    + destruct (handle_response_run (req_url request) key nr
                  (set_network_log (network_log w3 ++ [FetchFollow (req_url request)]) w3))
        as (w' & Hresp & _).
      rewrite Hresp. eauto.
    + match goal with
      | |- context [handle_catch ?a ?b ?c ?wc] =>
          destruct (handle_catch_run a b c wc) as (w' & Hcatch)
      end.
      * apply fault_at_free. simpl. auto.
      * rewrite Hcatch. eauto.
Qed.

(** * Runs in which nothing fails *)

Lemma with_cache_rest name w :
  chrome_storage (with_cache name w) = chrome_storage w /\
  cached_online_icon_urls (with_cache name w) = cached_online_icon_urls w /\
  icon_redirect_map (with_cache name w) = icon_redirect_map w /\
  network_log (with_cache name w) = network_log w /\
  console (with_cache name w) = console w.
Proof. unfold with_cache. now destruct (cs_lookup name (caches w)). Qed.

Lemma AllowList_chrome_storage url w : url ∈ AllowList w -> chrome_storage w = true.
Proof.
  unfold AllowList. destruct (chrome_storage w); [reflexivity|].
  intros H. now apply elem_of_empty in H.
Qed.

Lemma isIconRequest_fault_free url w :
  faults w = [] ->
  url ∈ AllowList w ->
  includes url "/assets/" = false ->
  isIconRequest url w = (Ok true, w).
Proof.
  intros Hf Hin Hassets. unfold isIconRequest, try_catch, bind. rewrite Hassets.
  rewrite getCachedIconUrls_run, (AllowList_chrome_storage url w Hin), Hf.
  now rewrite bool_decide_eq_true_2.
Qed.

Lemma resolveRedirectUrl_fault_free url w :
  faults w = [] ->
  chrome_storage w = true ->
  resolveRedirectUrl url w = (Ok (resolved_url w url), w).
Proof.
  intros Hf Hc. unfold resolveRedirectUrl, bind, resolved_url.
  rewrite getRedirectMap_run, Hc, Hf.
  destruct (icon_redirect_map w !! url) as [v|]; simpl; [|reflexivity].
  now destruct (String.eqb v "").
Qed.

(** The handler on an icon request when nothing fails: the [try] and
    [catch] blocks run in the world as it was, with the cache key the
    stored redirect map gives. *)
Lemma handle_fault_free E request w :
  faults w = [] ->
  req_url request ∈ AllowList w ->
  includes (req_url request) "/assets/" = false ->
  exists cacheKey,
    req_url cacheKey = resolved_url w (req_url request) /\
    handle E request w =
    try_catch (handle_try E (req_url request) cacheKey)
              (handle_catch (req_url request) cacheKey) w.
Proof.
  intros Hf Hin Hassets. unfold handle, bind at 1.
  rewrite (isIconRequest_fault_free _ _ Hf Hin Hassets). cbn [negb].
  unfold bind at 1.
  rewrite (resolveRedirectUrl_fault_free _ _ Hf (AllowList_chrome_storage _ _ Hin)).
  eexists. split; [|reflexivity].
  destruct (String.eqb_spec (resolved_url w (req_url request)) (req_url request));
    simpl; congruence.
Qed.

Lemma handle_hit_fault_free E request w r :
  faults w = [] ->
  req_url request ∈ AllowList w ->
  includes (req_url request) "/assets/" = false ->
  cache_entry w ICON_CACHE_NAME (resolved_url w (req_url request)) = Some r ->
  isCacheExpired E (Some r) = false ->
  handle E request w = (Ok r, w).
Proof.
  intros Hf Hin Hassets Hentry Hfresh.
  destruct (handle_fault_free E request w Hf Hin Hassets) as (key & Hkey & Hrun).
  rewrite Hrun. unfold try_catch, handle_try, bind.
  rewrite (getIconFromCache_fault_free E key w Hf), Hkey, Hentry, Hfresh.
  reflexivity.
Qed.

(** X9.  A cache hit, when nothing fails: for an allow-listed URL whose
    resolved key (the final URL recorded for it, or the URL itself) has
    a fresh entry in the icon cache, the handler returns that entry and
    leaves the whole world as it was: no network request, no write, no
    console output. *)
Theorem handle_cache_hit (E : Env) (request : Request) (w : World) (r : Response) :
  faults w = [] ->
  req_url request ∈ AllowList w ->
  includes (req_url request) "/assets/" = false ->
  cache_entry w ICON_CACHE_NAME (resolved_url w (req_url request)) = Some r ->
  isCacheExpired E (Some r) = false ->
  handle E request w = (Ok r, w).
Proof. apply handle_hit_fault_free. Qed.

Lemma set_faults_nil w : faults w = [] -> set_faults [] w = w.
Proof. destruct w. simpl. now intros ->. Qed.

(** What the handler does with a network response fit for the cache when
    nothing fails. *)
Lemma handle_response_fault_free url key nr w :
  faults w = [] ->
  chrome_storage w = true ->
  status_cacheable nr = true ->
  isImageResponse (Some nr) = true ->
  exists w',
    handle_response url key nr w = (Ok nr, w') /\
    faults w' = [] /\
    chrome_storage w' = true /\
    cached_online_icon_urls w' = cached_online_icon_urls w /\
    network_log w' = network_log w /\
    icon_redirect_map w' =
      (if negb (String.eqb (resp_url nr) "") && negb (String.eqb (resp_url nr) url)
       then <[url := resp_url nr]> (icon_redirect_map w)
       else icon_redirect_map w) /\
    forall name k,
      cache_entry w' name k =
      if String.eqb name ICON_CACHE_NAME
         && String.eqb k (if negb (String.eqb (resp_url nr) "")
                             && negb (String.eqb (resp_url nr) url)
                          then resp_url nr else req_url key)
      then Some nr else cache_entry w name k.
Proof.
  intros Hf Hc Hstatus Himg. unfold handle_response. rewrite Hstatus.
  cbn [truthy].
  assert (Hwarn : forall w0 : World,
            exists w',
              (if negb (resp_ok nr) then console_log (WarnStatus url (resp_status nr))
               else ret tt) w0 = (Ok tt, w') /\
              faults w' = faults w0 /\ chrome_storage w' = chrome_storage w0 /\
              cached_online_icon_urls w' = cached_online_icon_urls w0 /\
              network_log w' = network_log w0 /\
              icon_redirect_map w' = icon_redirect_map w0 /\
              caches w' = caches w0).
  { intros w0. destruct (negb (resp_ok nr)); eexists; repeat split; reflexivity. }
  destruct (negb (String.eqb (resp_url nr) "") && negb (String.eqb (resp_url nr) url))
    eqn:Hred.
  - assert (Hne : url <> resp_url nr).
    { apply andb_true_iff in Hred as [_ H]. apply negb_true_iff in H.
      destruct (String.eqb_spec (resp_url nr) url); [discriminate | congruence]. }
    unfold bind at 1. unfold bind at 1.
    rewrite (saveRedirectMapping_run url (resp_url nr) w Hne Hc
               (fault_at_free 0 w Hf) (fault_at_free 1 w Hf)).
    rewrite Hf. cbn [drop]. rewrite (set_faults_nil w Hf).
    set (w1 := set_icon_redirect_map _ w).
    assert (Hf1 : faults w1 = []) by exact Hf.
    rewrite (cacheIcon_fault_free (new_Request (resp_url nr)) nr w1 Hf1 Himg).
    set (w2 := set_caches _ _).
    destruct (Hwarn w2) as (w' & Hrun & H1 & H2 & H3 & H4 & H5 & H6).
    unfold bind. rewrite Hrun. exists w'. split; [reflexivity|].
    destruct (with_cache_rest ICON_CACHE_NAME w1) as (A1 & A2 & A3 & A4 & _).
    repeat split.
    + rewrite H1. unfold w2. cbn [faults set_caches]. now rewrite with_cache_faults.
    + rewrite H2. unfold w2. cbn [chrome_storage set_caches]. now rewrite A1.
    + rewrite H3. unfold w2. cbn [cached_online_icon_urls set_caches]. now rewrite A2.
    + rewrite H4. unfold w2. cbn [network_log set_caches]. now rewrite A4.
    + rewrite H5. unfold w2. cbn [icon_redirect_map set_caches]. now rewrite A3.
    + intros name k. unfold cache_entry at 1. rewrite H6.
      change (cache_entry w2 name k = if String.eqb name ICON_CACHE_NAME
                                         && String.eqb k (resp_url nr)
                                      then Some nr else cache_entry w name k).
      unfold w2. rewrite cache_entry_put by apply with_cache_exists.
      now rewrite with_cache_entry.
  - unfold bind at 1.
    rewrite (cacheIcon_fault_free key nr w Hf Himg).
    set (w2 := set_caches _ _).
    destruct (Hwarn w2) as (w' & Hrun & H1 & H2 & H3 & H4 & H5 & H6).
    unfold bind. rewrite Hrun. exists w'. split; [reflexivity|].
    destruct (with_cache_rest ICON_CACHE_NAME w) as (A1 & A2 & A3 & A4 & _).
    repeat split.
    + rewrite H1. unfold w2. cbn [faults set_caches]. now rewrite with_cache_faults.
    + rewrite H2. unfold w2. cbn [chrome_storage set_caches]. now rewrite A1.
    + rewrite H3. unfold w2. cbn [cached_online_icon_urls set_caches]. now rewrite A2.
    + rewrite H4. unfold w2. cbn [network_log set_caches]. now rewrite A4.
    + rewrite H5. unfold w2. cbn [icon_redirect_map set_caches]. now rewrite A3.
    + intros name k. unfold cache_entry at 1. rewrite H6.
      change (cache_entry w2 name k = if String.eqb name ICON_CACHE_NAME
                                         && String.eqb k (req_url key)
                                      then Some nr else cache_entry w name k).
      unfold w2. rewrite cache_entry_put by apply with_cache_exists.
      now rewrite with_cache_entry.
Qed.

(** The run of the handler on a cache miss answered by the network with
    a response fit for the cache, when nothing fails. *)
Lemma handle_miss_fault_free E request w nr :
  faults w = [] ->
  req_url request ∈ AllowList w ->
  includes (req_url request) "/assets/" = false ->
  entry_expired E (cache_entry w ICON_CACHE_NAME (resolved_url w (req_url request)))
  = is_Some_bool (cache_entry w ICON_CACHE_NAME (resolved_url w (req_url request))) ->
  fetch_result E (FetchFollow (req_url request)) = Some nr ->
  status_cacheable nr = true ->
  isImageResponse (Some nr) = true ->
  exists w',
    handle E request w = (Ok nr, w') /\
    faults w' = [] /\
    chrome_storage w' = chrome_storage w /\
    cached_online_icon_urls w' = cached_online_icon_urls w /\
    network_log w' = (network_log w ++ [FetchFollow (req_url request)])%list /\
    icon_redirect_map w' =
      (if redirected_to nr (req_url request)
       then <[req_url request := resp_url nr]> (icon_redirect_map w)
       else icon_redirect_map w) /\
    cache_entry w' ICON_CACHE_NAME (storage_key w (req_url request) nr) = Some nr.
Proof.
  intros Hf Hin Hassets Hmiss Hnet Hstatus Himg.
  pose proof (AllowList_chrome_storage _ _ Hin) as Hc.
  destruct (handle_fault_free E request w Hf Hin Hassets) as (key & Hkey & Hrun).
  rewrite Hrun. unfold try_catch, handle_try, bind at 1.
  rewrite (getIconFromCache_fault_free E key w Hf), Hkey.
  assert (Hget : exists w3,
            match cache_entry w ICON_CACHE_NAME (resolved_url w (req_url request)) with
            | Some r =>
                if isCacheExpired E (Some r)
                then (Ok None,
                      set_caches (cs_update ICON_CACHE_NAME
                                    (delete (resolved_url w (req_url request)))
                                    (caches w)) w)
                else (Ok (Some r), w)
            | None => (Ok None, with_cache ICON_CACHE_NAME w)
            end = (@Ok (option Response) None, w3) /\
            faults w3 = [] /\ chrome_storage w3 = true /\
            cached_online_icon_urls w3 = cached_online_icon_urls w /\
            network_log w3 = network_log w /\
            icon_redirect_map w3 = icon_redirect_map w).
  { destruct (cache_entry w ICON_CACHE_NAME (resolved_url w (req_url request)))
      as [r|]; simpl in Hmiss.
    - rewrite Hmiss. eexists. split; [reflexivity|]. repeat split; auto.
    - eexists. split; [reflexivity|].
      destruct (with_cache_rest ICON_CACHE_NAME w) as (A1 & A2 & A3 & A4 & _).
      rewrite with_cache_faults. repeat split; congruence. }
  destruct Hget as (w3 & -> & Hf3 & Hc3 & Hal3 & Hlog3 & Hmap3).
  unfold bind at 1, try_catch. rewrite fetch_run, Hnet.
  set (w4 := set_network_log _ w3).
  destruct (handle_response_fault_free (req_url request) key nr w4 Hf3 Hc3 Hstatus Himg)
    as (w' & Hresp & Hf' & Hc' & Hal' & Hlog' & Hmap' & Hentry').
  rewrite Hresp. exists w'. split; [reflexivity|].
  split; [exact Hf'|]. split; [congruence|]. split; [now rewrite Hal'|].
  split; [rewrite Hlog'; simpl; now rewrite Hlog3|].
  split.
  - rewrite Hmap'. unfold redirected_to. simpl. now rewrite Hmap3.
  - rewrite Hentry'. unfold storage_key, redirected_to. rewrite Hkey.
    now rewrite !String.eqb_refl.
Qed.

Lemma no_fresh_entry E (entry : option Response) :
  (forall r, entry = Some r -> isCacheExpired E (Some r) = true) ->
  entry_expired E entry = is_Some_bool entry.
Proof. intros H. destruct entry as [r|]; simpl; [now apply H | reflexivity]. Qed.

(** X10.  A first request, when nothing fails: for an allow-listed URL
    with no fresh entry under its resolved key, a network response with a
    status in 200..399 that passes the gate is returned to the caller
    after exactly one redirect-following request and is stored in the
    icon cache, under its final URL when that is a redirect away from
    the requested URL (the redirect is then recorded) and under the
    resolved key otherwise. *)
Theorem handle_fetches_and_stores (E : Env) (request : Request) (w : World)
    (networkResponse : Response) :
  faults w = [] ->
  req_url request ∈ AllowList w ->
  includes (req_url request) "/assets/" = false ->
  (forall r,
     cache_entry w ICON_CACHE_NAME (resolved_url w (req_url request)) = Some r ->
     isCacheExpired E (Some r) = true) ->
  fetch_result E (FetchFollow (req_url request)) = Some networkResponse ->
  status_cacheable networkResponse = true ->
  isImageResponse (Some networkResponse) = true ->
  fst (handle E request w) = Ok networkResponse /\
  network_log (snd (handle E request w))
  = (network_log w ++ [FetchFollow (req_url request)])%list /\
  icon_redirect_map (snd (handle E request w)) =
    (if redirected_to networkResponse (req_url request)
     then <[req_url request := resp_url networkResponse]> (icon_redirect_map w)
     else icon_redirect_map w) /\
  cache_entry (snd (handle E request w)) ICON_CACHE_NAME
    (storage_key w (req_url request) networkResponse)
  = Some networkResponse.
Proof.
  intros Hf Hin Hassets Hstale Hnet Hstatus Himg.
  pose proof (no_fresh_entry E _ Hstale) as Hmiss.
  destruct (handle_miss_fault_free E request w networkResponse
              Hf Hin Hassets Hmiss Hnet Hstatus Himg)
    as (w' & Hrun & _ & _ & _ & Hlog & Hmap & Hentry).
  rewrite Hrun. auto.
Qed.

(** X11.  Replay, when nothing fails: after such a first request, a
    second request for the same URL is answered with the same response
    from the icon cache as long as it is not expired, without any
    network request and without changing anything, also when the first
    response came from a redirect: the recorded final URL leads straight
    to the entry. *)
Theorem handle_second_request_hits (E : Env) (request : Request) (w : World)
    (networkResponse : Response) :
  faults w = [] ->
  req_url request ∈ AllowList w ->
  includes (req_url request) "/assets/" = false ->
  (forall r,
     cache_entry w ICON_CACHE_NAME (resolved_url w (req_url request)) = Some r ->
     isCacheExpired E (Some r) = true) ->
  fetch_result E (FetchFollow (req_url request)) = Some networkResponse ->
  status_cacheable networkResponse = true ->
  isImageResponse (Some networkResponse) = true ->
  isCacheExpired E (Some networkResponse) = false ->
  handle E request (snd (handle E request w))
  = (Ok networkResponse, snd (handle E request w)).
Proof.
  intros Hf Hin Hassets Hstale Hnet Hstatus Himg Hfresh.
  pose proof (no_fresh_entry E _ Hstale) as Hmiss.
  destruct (handle_miss_fault_free E request w networkResponse
              Hf Hin Hassets Hmiss Hnet Hstatus Himg)
    as (w' & Hrun & Hf' & Hc' & Hal' & Hlog & Hmap & Hentry).
  rewrite Hrun. cbn [snd].
  apply handle_hit_fault_free; auto.
  - unfold AllowList in *. now rewrite Hc', Hal'.
  - assert (Hres : resolved_url w' (req_url request)
                   = storage_key w (req_url request) networkResponse);
      [|now rewrite Hres].
    unfold resolved_url, storage_key. rewrite Hmap.
    unfold redirected_to.
    destruct (negb (String.eqb (resp_url networkResponse) "")
              && negb (String.eqb (resp_url networkResponse) (req_url request)))
      eqn:Hred; [|reflexivity].
    rewrite lookup_insert_eq.
    apply andb_true_iff in Hred as [H _]. apply negb_true_iff in H. now rewrite H.
Qed.

(** * What a run can add to the CacheStorage *)

#[export] Instance only_network_response_added_preorder E url :
  PreOrder (only_network_response_added E url).
Proof.
  split.
  - intros w name key r H. now left.
  - intros w1 w2 w3 H12 H23 name key r H.
    destruct (H23 _ _ _ H) as [H'|H']; [apply H12, H' | now right].
Qed.

Lemma nothing_added_network_response E url w w' :
  nothing_added w w' -> only_network_response_added E url w w'.
Proof. intros H name key r Hr. left. now apply H. Qed.

(** Closes the side conditions of the [keeps] lemmas for
    [only_network_response_added]. *)
Ltac added_frame :=
  intros; try typeclasses eauto;
  apply nothing_added_network_response;
  first [ now apply nothing_added_open
        | now apply nothing_added_delete
        | now apply nothing_added_same_caches ].

Lemma nothing_added_same_entries w w' :
  (forall name key, cache_entry w' name key = cache_entry w name key) ->
  nothing_added w w'.
Proof. intros H name key r. now rewrite H. Qed.

Lemma cacheIcon_adds E url request response :
  fetch_result E (FetchFollow url) = Some response ->
  status_cacheable response = true ->
  keeps (only_network_response_added E url) (cacheIcon request response).
Proof.
  intros Hnet Hstatus w. unfold cacheIcon, try_catch.
  destruct (isImageResponse (Some response)) eqn:Himg; cbn [negb].
  2:{ apply nothing_added_network_response, nothing_added_same_caches. reflexivity. }
  unfold bind. rewrite caches_open_pop.
  destruct (fault_at 0 w).
  { apply nothing_added_network_response, nothing_added_same_entries.
    same_entries. reflexivity. }
  rewrite cache_put_pop.
  set (w1 := with_cache ICON_CACHE_NAME (pop_fault w)).
  assert (H1 : forall name key, cache_entry w1 name key = cache_entry w name key).
  { intros. unfold w1. now rewrite with_cache_entry, pop_fault_entry. }
  destruct (fault_at 0 w1).
  { apply nothing_added_network_response, nothing_added_same_entries.
    same_entries. apply H1. }
  cbn [snd]. intros name key r.
  rewrite cache_entry_put by (rewrite pop_fault_caches; apply with_cache_exists).
  destruct (String.eqb_spec name ICON_CACHE_NAME) as [->|]; simpl.
  - destruct (String.eqb key (req_url request)).
    + intros [= <-]. right. auto.
    + rewrite pop_fault_entry, H1. auto.
  - rewrite pop_fault_entry, H1. auto.
Qed.

Lemma handle_adds E request :
  keeps (only_network_response_added E (req_url request)) (handle E request).
Proof.
  unfold handle.
  apply keeps_bind; [typeclasses eauto| |].
  { apply keeps_isIconRequest; added_frame. }
  intros isIcon. destruct isIcon; cbn [negb].
  2:{ apply keeps_fetch; added_frame. }
  apply keeps_bind; [typeclasses eauto| |].
  { apply keeps_resolveRedirectUrl; added_frame. }
  intros redirectUrl.
  apply keeps_try_catch; [typeclasses eauto| |].
  2:{ intros e. apply keeps_handle_catch; added_frame. }
  unfold handle_try.
  apply keeps_bind; [typeclasses eauto| |].
  { apply keeps_getIconFromCache; added_frame. }
  intros [r|]; [apply keeps_ret; typeclasses eauto|].
  apply (keeps_bind_val (only_network_response_added E (req_url request))
           (fun nr => fetch_result E (FetchFollow (req_url request)) = Some nr)).
  - apply keeps_try_catch; [typeclasses eauto| |].
    + apply keeps_fetch; added_frame.
    + intros e. apply keeps_bind; [typeclasses eauto| |].
      * apply keeps_console_log; added_frame.
      * intros _. apply keeps_throw. typeclasses eauto.
  - intros w nr. unfold try_catch, fetch, bind, modify, console_log, modify, throw.
    destruct (fetch_result E _); simpl; congruence.
  - intros nr Hnet. unfold handle_response.
    assert (Hput : forall key,
              keeps (only_network_response_added E (req_url request))
                (if status_cacheable nr then cacheIcon key nr else ret tt)).
    { intros key. destruct (status_cacheable nr) eqn:Hstatus.
      - now apply cacheIcon_adds.
      - apply keeps_ret. typeclasses eauto. }
    apply keeps_bind; [typeclasses eauto| |].
    + destruct (_ && _); [|apply Hput].
      apply keeps_bind; [typeclasses eauto| |intros; apply Hput].
      apply keeps_saveRedirectMapping; added_frame.
    + intros _. apply keeps_bind; [typeclasses eauto| |].
      * destruct (negb (resp_ok nr));
          [apply keeps_console_log; added_frame | apply keeps_ret; typeclasses eauto].
      * intros _. apply keeps_ret. typeclasses eauto.
Qed.

(** X12.  Whatever fails, the only thing a run of the handler can add to
    the CacheStorage is the response the network gave to this run's
    redirect-following request, stored in the icon cache, and only when
    its status is in 200..399 and it passes the gate.  So a response
    with a status of 400 or more (or below 200) is never stored, and a
    run whose network request fails stores nothing. *)
Theorem handle_adds_only_network_response (E : Env) (request : Request) (w : World) :
  only_network_response_added E (req_url request) w (snd (handle E request w)) /\
  (forall networkResponse,
     fetch_result E (FetchFollow (req_url request)) = Some networkResponse ->
     status_cacheable networkResponse = false ->
     nothing_added w (snd (handle E request w))) /\
  (fetch_result E (FetchFollow (req_url request)) = None ->
   nothing_added w (snd (handle E request w))).
Proof.
  pose proof (handle_adds E request w) as Hadd.
  split; [exact Hadd|split].
  - intros nr Hnet Hstatus name key r Hr.
    destruct (Hadd _ _ _ Hr) as [H|(_ & Hnet' & Hstatus' & _)]; [exact H|].
    congruence.
  - intros Hnet name key r Hr.
    destruct (Hadd _ _ _ Hr) as [H|(_ & Hnet' & _)]; [exact H | congruence].
Qed.

(** * Further properties of freshness, the gate and the resolver *)

(** X13.  Expiry is monotone in time: with the same date parser, an entry
    found expired at some time is found expired at every later time, so
    an entry found fresh now was fresh at every earlier time. *)
Theorem isCacheExpired_monotone (E E' : Env) (response : option Response) :
  (forall s, Date_parse E' s = Date_parse E s) ->
  Date_now E <= Date_now E' ->
  (isCacheExpired E response = true -> isCacheExpired E' response = true) /\
  (isCacheExpired E' response = false -> isCacheExpired E response = false).
Proof.
  intros Hparse Hnow.
  assert (H : isCacheExpired E response = true -> isCacheExpired E' response = true).
  { unfold isCacheExpired. destruct response as [r|]; [|auto].
    destruct (resp_headers r) as [h|]; [|auto].
    destruct (truthy (headers_get h "Cache-Control") && _); [auto|].
    destruct (negb (truthy (headers_get h "Date"))); [auto|].
    rewrite Hparse. destruct (Date_parse E _) as [t|]; [|auto].
    cbv zeta. intros Hlt%Z.ltb_lt. apply Z.ltb_lt. lia. }
  split; [exact H|]. intros H'.
  destruct (isCacheExpired E response); [|reflexivity].
  rewrite H in H' by reflexivity. discriminate.
Qed.

Lemma append_cons c (s t : string) : (String c s ++ t)%string = String c (s ++ t)%string.
Proof. reflexivity. Qed.

Lemma startsWith_iff s p : startsWith s p = true <-> exists post, s = (p ++ post)%string.
Proof.
  revert s. induction p as [|a p IH]; intros s; destruct s as [|b s]; cbn [startsWith].
  - split; [intros _; now exists "" | reflexivity].
  - split; [intros _; now exists (String b s) | reflexivity].
  - split; [discriminate | intros (post & H); discriminate].
  - destruct (Ascii.eqb_spec a b) as [->|Hne].
    + rewrite IH. split; intros (post & H); exists post;
        rewrite append_cons in *; congruence.
    + split; [discriminate|]. intros (post & H). rewrite append_cons in H. congruence.
Qed.

(** [includes] is the substring test. *)
Lemma includes_iff s needle :
  includes s needle = true <-> exists pre post, s = (pre ++ needle ++ post)%string.
Proof.
  induction s as [|c s IH]; cbn [includes]; rewrite orb_true_iff, startsWith_iff.
  - split.
    + intros [(post & H)|H]; [|discriminate]. now exists "", post.
    + intros (pre & post & H). left. destruct pre; [|discriminate]. now exists post.
  - rewrite IH. split.
    + intros [(post & H)|(pre & post & H)].
      * now exists "", post.
      * exists (String c pre), post. rewrite append_cons. congruence.
    + intros (pre & post & H). destruct pre as [|c' pre].
      * left. now exists post.
      * right. exists pre, post. rewrite append_cons in H. congruence.
Qed.

(** X14.  The gate accepts a response exactly when its Content-Type
    value has one of the eight image types somewhere inside it: the
    value is some text, then the type, then some text.  So an image type
    followed by parameters is accepted, and so is any value that merely
    mentions an image type. *)
Theorem isImageResponse_substring (r : Response) :
  isImageResponse (Some r) = true <->
  exists type pre post,
    In type imageTypes /\ content_type_of r = Some (pre ++ type ++ post)%string.
Proof.
  rewrite isImageResponse_iff. split.
  - intros (ct & type & Hct & Hin & Hinc).
    apply includes_iff in Hinc as (pre & post & ->). eauto.
  - intros (type & pre & post & Hin & Hct).
    exists (pre ++ type ++ post)%string, type. repeat split; auto.
    apply includes_iff. eauto.
Qed.

(** X15.  [resolveRedirectUrl] fails safe: it never throws; without
    extension storage it returns the URL it was given and leaves the
    world untouched; when the read of the redirect map rejects it
    returns the URL it was given and the failure is the last line on the
    console; and in every case what it returns is the URL given or the
    final URL stored for it. *)
Theorem resolveRedirectUrl_falls_back (originalUrl : string) (w : World) :
  (chrome_storage w = false ->
   resolveRedirectUrl originalUrl w = (Ok originalUrl, w)) /\
  (chrome_storage w = true -> fault_at 0 w = true ->
   fst (resolveRedirectUrl originalUrl w) = Ok originalUrl /\
   last (console (snd (resolveRedirectUrl originalUrl w)))
   = Some (ErrorReadRedirectMap StorageError)) /\
  (exists url,
     fst (resolveRedirectUrl originalUrl w) = Ok url /\
     (url = originalUrl \/ icon_redirect_map w !! originalUrl = Some url)).
Proof.
  split; [|split].
  - intros Hc. unfold resolveRedirectUrl, bind. rewrite getRedirectMap_run, Hc.
    now rewrite lookup_empty.
  - intros Hc Hf. unfold resolveRedirectUrl, bind. rewrite getRedirectMap_run, Hc.
    unfold fault_at in Hf.
    destruct (faults w) as [|[|] fs]; simpl in Hf; try discriminate.
    rewrite lookup_empty. cbn [truthy fst snd console set_console].
    split; [reflexivity | apply last_snoc].
  - destruct (never_throws_run _ w (nt_resolveRedirectUrl originalUrl)) as [u Hu].
    exists u. rewrite Hu. split; [reflexivity|].
    exact (resolveRedirectUrl_result _ _ _ _ Hu).
Qed.

(** X16.  [saveRedirectMapping] swallows persistence errors: it never
    throws; without extension storage it does nothing at all; when the
    write rejects, the stored map is left as it was and the failure is
    the last line on the console; and it never touches the CacheStorage,
    the AllowList or the network. *)
Theorem saveRedirectMapping_swallows_errors (originalUrl finalUrl : string) (w : World) :
  fst (saveRedirectMapping originalUrl finalUrl w) = Ok tt /\
  (chrome_storage w = false ->
   saveRedirectMapping originalUrl finalUrl w = (Ok tt, w)) /\
  (originalUrl <> finalUrl -> chrome_storage w = true -> fault_at 1 w = true ->
   icon_redirect_map (snd (saveRedirectMapping originalUrl finalUrl w))
   = icon_redirect_map w /\
   last (console (snd (saveRedirectMapping originalUrl finalUrl w)))
   = Some (ErrorSaveRedirectMapping StorageError)) /\
  caches (snd (saveRedirectMapping originalUrl finalUrl w)) = caches w /\
  cached_online_icon_urls (snd (saveRedirectMapping originalUrl finalUrl w))
  = cached_online_icon_urls w /\
  network_log (snd (saveRedirectMapping originalUrl finalUrl w)) = network_log w.
Proof.
  split; [|split; [|split; [|split; [|split]]]].
  - destruct (nt_saveRedirectMapping originalUrl finalUrl w) as [[] H]. exact H.
  - intros Hc. unfold saveRedirectMapping.
    destruct (String.eqb originalUrl finalUrl); [reflexivity|].
    unfold bind, gets. now rewrite Hc.
  - intros Hne Hc Hf.
    assert (Hrun : exists w',
              saveRedirectMapping originalUrl finalUrl w = (Ok tt, w') /\
              icon_redirect_map w' = icon_redirect_map w /\
              last (console w') = Some (ErrorSaveRedirectMapping StorageError)).
    { unfold saveRedirectMapping.
      destruct (String.eqb_spec originalUrl finalUrl); [contradiction|].
      unfold bind at 1, gets at 1. rewrite Hc. cbn [negb].
      unfold try_catch, bind. rewrite getRedirectMap_run, Hc. unfold fault_at in Hf.
      destruct (faults w) as [|[|] [|[|] fs]] eqn:Hfs; simpl in Hf; try discriminate;
        rewrite storage_set_redirect_map_run; cbn [faults set_faults set_console];
        eexists; (split; [reflexivity|]); split;
        first [ reflexivity | apply last_snoc ]. }
    destruct Hrun as (w' & -> & H1 & H2). auto.
  - symmetry. apply (keeps_saveRedirectMapping (same caches)); frame_solver.
  - symmetry.
    apply (keeps_saveRedirectMapping (same cached_online_icon_urls)); frame_solver.
  - symmetry. apply (keeps_saveRedirectMapping (same network_log)); frame_solver.
Qed.

(** X17.  Record, then resolve, when nothing fails: after
    [saveRedirectMapping] recorded a final URL (not empty, different
    from the original) for a URL, [resolveRedirectUrl] returns that
    final URL for it and what it returned before for every other URL; a
    second record for the same URL replaces the first. *)
Theorem saveRedirectMapping_then_resolve (originalUrl finalUrl : string) (w : World) :
  faults w = [] ->
  chrome_storage w = true ->
  originalUrl <> finalUrl ->
  finalUrl <> "" ->
  fst (resolveRedirectUrl originalUrl (snd (saveRedirectMapping originalUrl finalUrl w)))
  = Ok finalUrl /\
  (forall url,
     url <> originalUrl ->
     fst (resolveRedirectUrl url (snd (saveRedirectMapping originalUrl finalUrl w)))
     = fst (resolveRedirectUrl url w)) /\
  (forall finalUrl',
     originalUrl <> finalUrl' -> finalUrl' <> "" ->
     fst (resolveRedirectUrl originalUrl
            (snd (saveRedirectMapping originalUrl finalUrl'
                    (snd (saveRedirectMapping originalUrl finalUrl w)))))
     = Ok finalUrl').
Proof.
  intros Hf Hc Hne Hnonempty.
  assert (Hsave : forall a b w0,
            faults w0 = [] -> chrome_storage w0 = true -> a <> b ->
            exists w1,
              saveRedirectMapping a b w0 = (Ok tt, w1) /\
              faults w1 = [] /\ chrome_storage w1 = true /\
              icon_redirect_map w1 = <[a := b]> (icon_redirect_map w0)).
  { intros a b w0 Hf0 Hc0 Hab.
    rewrite (saveRedirectMapping_run a b w0 Hab Hc0
               (fault_at_free 0 w0 Hf0) (fault_at_free 1 w0 Hf0)).
    eexists. split; [reflexivity|]. rewrite Hf0. auto. }
  assert (Hres : forall url w0,
            faults w0 = [] -> chrome_storage w0 = true ->
            fst (resolveRedirectUrl url w0) = Ok (resolved_url w0 url)).
  { intros url w0 Hf0 Hc0. now rewrite (resolveRedirectUrl_fault_free url w0 Hf0 Hc0). }
  destruct (Hsave originalUrl finalUrl w Hf Hc Hne) as (w1 & Hrun1 & Hf1 & Hc1 & Hm1).
  rewrite Hrun1. cbn [snd]. split; [|split].
  - rewrite (Hres _ _ Hf1 Hc1). unfold resolved_url. rewrite Hm1, lookup_insert_eq.
    destruct (String.eqb_spec finalUrl ""); [contradiction | reflexivity].
  - intros url Hurl. rewrite (Hres _ _ Hf1 Hc1), (Hres _ _ Hf Hc).
    unfold resolved_url. rewrite Hm1. now rewrite lookup_insert_ne by congruence.
  - intros finalUrl' Hne' Hnonempty'.
    destruct (Hsave originalUrl finalUrl' w1 Hf1 Hc1 Hne') as (w2 & Hrun2 & Hf2 & Hc2 & Hm2).
    rewrite Hrun2. cbn [snd]. rewrite (Hres _ _ Hf2 Hc2). unfold resolved_url.
    rewrite Hm2, lookup_insert_eq.
    destruct (String.eqb_spec finalUrl' ""); [contradiction | reflexivity].
Qed.

(** * The message listener *)

Lemma fetchSearchSuggestions_response N url v :
  fst (fetchSearchSuggestions N url true) = inl v ->
  exists response,
    v = SuggestedResponse response /\
    page_fetch N url = Some response /\ resp_ok response = true.
Proof.
  unfold fetchSearchSuggestions.
  destruct (page_fetch N url) as [response|]; [|discriminate].
  destruct (resp_ok response) eqn:Hok; cbn [negb fst]; [|discriminate].
  intros [= <-]. eauto.
Qed.

(** X18.  The listener answers the three message types it knows, and
    those only: each gets exactly one reply after one fetch of the
    message's URL, and the reply reports success exactly when the fetch
    gave a response with a status in 200..299 that has what the type
    needs (a Content-Type header for search suggestions, headers for the
    content-type query, nothing more for the favicon page).  A message
    of any other type gets no reply and causes no fetch. *)
Theorem onMessage_replies (N : TextEnv) (request : Message) :
  (msg_type request = "FETCH_SEARCH_SUGGESTIONS" ->
   kept_open (onMessage N request) = true /\
   fetched (onMessage N request) = [msg_url request] /\
   is_Some (reply (onMessage N request)) /\
   (is_success (reply (onMessage N request)) = true <->
    exists response contentType,
      page_fetch N (msg_url request) = Some response /\
      resp_ok response = true /\
      header_of response "content-type" = Some (Some contentType))) /\
  (msg_type request = "FETCH_NETWORK_SOURCE_CONTENT_TYPE" ->
   kept_open (onMessage N request) = true /\
   fetched (onMessage N request) = [msg_url request] /\
   is_Some (reply (onMessage N request)) /\
   (is_success (reply (onMessage N request)) = true <->
    exists response,
      page_fetch N (msg_url request) = Some response /\
      resp_ok response = true /\ resp_headers response <> None)) /\
  (msg_type request = "FEICH_HOST_FAVICON" ->
   kept_open (onMessage N request) = true /\
   fetched (onMessage N request) = [msg_url request] /\
   is_Some (reply (onMessage N request)) /\
   (is_success (reply (onMessage N request)) = true <->
    exists response,
      page_fetch N (msg_url request) = Some response /\ resp_ok response = true)) /\
  (msg_type request <> "FETCH_SEARCH_SUGGESTIONS" ->
   msg_type request <> "FETCH_NETWORK_SOURCE_CONTENT_TYPE" ->
   msg_type request <> "FEICH_HOST_FAVICON" ->
   onMessage N request = {| reply := None; kept_open := false; fetched := [] |}).
Proof.
  split; [|split; [|split]].
  - intros Ht. unfold onMessage. rewrite Ht. cbn [String.eqb Ascii.eqb Bool.eqb].
    cbn [kept_open fetched reply]. repeat split; eauto.
    + unfold fetchSearchSuggestions.
      destruct (page_fetch N (msg_url request)) as [response|] eqn:Hf;
        [|discriminate].
      destruct (resp_ok response) eqn:Hok; cbn [negb]; [|discriminate].
      destruct (header_of response "content-type") as [[ct|]|] eqn:Hh;
        try discriminate.
      intros _. eauto.
    + intros (response & ct & Hf & Hok & Hh). unfold fetchSearchSuggestions.
      rewrite Hf, Hok, Hh. cbn [negb]. now destruct (existsb _ _).
  - intros Ht. unfold onMessage. rewrite Ht. cbn [String.eqb Ascii.eqb Bool.eqb].
    cbn [kept_open fetched reply]. repeat split; eauto.
    + destruct (fst (fetchSearchSuggestions N (msg_url request) true)) as [v|e] eqn:Hv;
        [|discriminate].
      destruct (fetchSearchSuggestions_response _ _ _ Hv) as (response & -> & Hf & Hok).
      unfold header_of. destruct (resp_headers response) eqn:Hh; [|discriminate].
      intros _. exists response. repeat split; auto. congruence.
    + intros (response & Hf & Hok & Hh). unfold fetchSearchSuggestions.
      rewrite Hf, Hok. cbn [negb fst]. unfold header_of.
      now destruct (resp_headers response).
  - intros Ht. unfold onMessage. rewrite Ht. cbn [String.eqb Ascii.eqb Bool.eqb].
    cbn [kept_open fetched reply]. repeat split; eauto.
    + destruct (fst (fetchSearchSuggestions N (msg_url request) true)) as [v|e] eqn:Hv;
        [|discriminate].
      destruct (fetchSearchSuggestions_response _ _ _ Hv) as (response & -> & Hf & Hok).
      eauto.
    + intros (response & Hf & Hok). unfold fetchSearchSuggestions.
      now rewrite Hf, Hok.
  - intros H1 H2 H3. unfold onMessage.
    destruct (String.eqb_spec (msg_type request) "FETCH_SEARCH_SUGGESTIONS");
      [contradiction|].
    destruct (String.eqb_spec (msg_type request) "FETCH_NETWORK_SOURCE_CONTENT_TYPE");
      [contradiction|].
    destruct (String.eqb_spec (msg_type request) "FEICH_HOST_FAVICON");
      [contradiction | reflexivity].
Qed.

(** X19.  Search suggestions are transcoded from GBK exactly when the
    Content-Type value of the (successful) response contains
    [charset=gbk] or [charset=GBK] somewhere; with any other value,
    other spellings of the charset included, the body is read as
    UTF-8. *)
Theorem suggestions_transcoding (N : TextEnv) (request : Message)
    (response : Response) (contentType : string) :
  msg_type request = "FETCH_SEARCH_SUGGESTIONS" ->
  page_fetch N (msg_url request) = Some response ->
  resp_ok response = true ->
  header_of response "content-type" = Some (Some contentType) ->
  ((exists pre post,
      contentType = (pre ++ "charset=gbk" ++ post)%string \/
      contentType = (pre ++ "charset=GBK" ++ post)%string) ->
   reply (onMessage N request)
   = Some (ReplySuccess (DataSuggested
             (SuggestedText (decode_gbk N (resp_body response)))))) /\
  (~ (exists pre post,
        contentType = (pre ++ "charset=gbk" ++ post)%string \/
        contentType = (pre ++ "charset=GBK" ++ post)%string) ->
   reply (onMessage N request)
   = Some (ReplySuccess (DataSuggested
             (SuggestedText (decode_utf8 N (resp_body response)))))).
Proof.
  intros Ht Hf Hok Hh.
  assert (Hrun : reply (onMessage N request) =
                 Some (ReplySuccess (DataSuggested (SuggestedText
                   (if includes contentType "charset=gbk"
                       || includes contentType "charset=GBK"
                    then decode_gbk N (resp_body response)
                    else decode_utf8 N (resp_body response)))))).
  { unfold onMessage. rewrite Ht. cbn [String.eqb Ascii.eqb Bool.eqb reply].
    unfold fetchSearchSuggestions. rewrite Hf, Hok, Hh. cbn [negb existsb].
    rewrite orb_false_r. now destruct (_ || _). }
  rewrite Hrun. split.
  - intros (pre & post & [H|H]).
    + assert (Hi : includes contentType "charset=gbk" = true)
        by (apply includes_iff; eauto).
      now rewrite Hi.
    + assert (Hi : includes contentType "charset=GBK" = true)
        by (apply includes_iff; eauto).
      now rewrite Hi, orb_true_r.
  - intros Hno.
    destruct (includes contentType "charset=gbk") eqn:H1.
    { exfalso. apply Hno. apply includes_iff in H1 as (pre & post & H). eauto. }
    destruct (includes contentType "charset=GBK") eqn:H2; [|reflexivity].
    exfalso. apply Hno. apply includes_iff in H2 as (pre & post & H). eauto.
Qed.

(** * Frames of the handler and of the sweep *)

Lemma handle_response_keeps_map url key nr w :
  redirected_to nr url = false ->
  icon_redirect_map (snd (handle_response url key nr w)) = icon_redirect_map w.
Proof.
  intros Hred. symmetry. unfold handle_response.
  change (truthy (Some (resp_url nr)) && negb (String.eqb (resp_url nr) url))
    with (redirected_to nr url).
  rewrite Hred.
  match goal with
  | |- _ = icon_redirect_map (snd (?m w)) =>
      assert (Hm : keeps (same icon_redirect_map) m); [|exact (Hm w)]
  end.
  apply keeps_bind; [typeclasses eauto| |].
  - destruct (status_cacheable nr);
      [apply keeps_cacheIcon | apply keeps_ret]; frame_solver.
  - intros _. apply keeps_bind; [typeclasses eauto| |].
    + destruct (negb (resp_ok nr));
        [apply keeps_console_log | apply keeps_ret]; frame_solver.
    + intros _. apply keeps_ret. typeclasses eauto.
Qed.

(** X20.  A run of the handler never writes the AllowList, whatever
    fails; and when nothing fails it leaves the final URL recorded for
    every other URL as it was: a request can only change the redirect
    recorded for its own URL. *)
Theorem handle_keeps_other_redirects (E : Env) (request : Request) (w : World) :
  chrome_storage (snd (handle E request w)) = chrome_storage w /\
  cached_online_icon_urls (snd (handle E request w)) = cached_online_icon_urls w /\
  AllowList (snd (handle E request w)) = AllowList w /\
  (faults w = [] ->
   forall url,
     url <> req_url request ->
     icon_redirect_map (snd (handle E request w)) !! url = icon_redirect_map w !! url).
Proof.
  assert (H1 : chrome_storage (snd (handle E request w)) = chrome_storage w).
  { symmetry. apply (keeps_handle (same chrome_storage)); frame_solver. }
  assert (H2 : cached_online_icon_urls (snd (handle E request w))
               = cached_online_icon_urls w).
  { symmetry. apply (keeps_handle (same cached_online_icon_urls)); frame_solver. }
  split; [exact H1|]. split; [exact H2|]. split.
  { unfold AllowList. now rewrite H1, H2. }
  intros Hf url Hurl.
  destruct (handle_cases E request w)
    as [(w1 & Hicon & Hrun) | (w1 & u & w2 & key & Hicon & Hres & Hkey & Hrun)].
  { rewrite Hrun, fetch_run. cbn [snd icon_redirect_map set_network_log].
    pose proof (isIconRequest_stores (req_url request) w) as Hst.
    rewrite Hicon in Hst. unfold stores in Hst. simpl in Hst. congruence. }
  destruct (handle_icon_prefix _ _ _ _ _ Hicon Hres)
    as (Hc & _ & Hst2 & _ & _ & Hf2).
  rewrite Hrun. unfold try_catch.
  destruct (handle_try_cases E (req_url request) key w2)
    as [(r & w3 & Hget & Htry) | (w3 & Hget & Htry)].
  { rewrite Htry. cbn [snd].
    pose proof (keeps_getIconFromCache (same storage) ltac:(frame_solver)
                  ltac:(frame_solver) ltac:(frame_solver) ltac:(frame_solver)
                  E key w2) as H3.
    rewrite Hget in H3. unfold same, storage in *. simpl in H3. congruence. }
  destruct (handle_try_reaches_network _ _ _ _ Hget) as (Hst3 & _ & Hf3).
  assert (Hmap3 : icon_redirect_map w3 = icon_redirect_map w)
    by (unfold storage in *; congruence).
  assert (Hc3 : chrome_storage w3 = true) by (unfold storage in *; congruence).
  cbv zeta in Htry.
  set (w4 := set_network_log (network_log w3 ++ [FetchFollow (req_url request)]) w3) in *.
  destruct (fetch_result E (FetchFollow (req_url request))) as [nr|] eqn:Hnet;
    rewrite Htry.
  - destruct (handle_response_run (req_url request) key nr w4) as (w' & Hresp & _).
    destruct (redirected_to nr (req_url request)) eqn:Hred.
    + assert (Hne : resp_url nr <> "" /\ resp_url nr <> req_url request).
      { unfold redirected_to in Hred. apply andb_true_iff in Hred as [A B].
        apply negb_true_iff in A, B.
        destruct (String.eqb_spec (resp_url nr) ""); [discriminate|].
        destruct (String.eqb_spec (resp_url nr) (req_url request)); [discriminate|].
        auto. }
      destruct Hne as [Hne1 Hne2].
      pose proof (handle_response_redirect (req_url request) key nr w4 Hne1 Hne2) as Hm.
      rewrite Hresp in Hm |- *. cbn [snd] in Hm |- *. rewrite Hm.
      assert (Hf4 : faults w4 = []) by (simpl; auto).
      rewrite saveRedirectMapping_run;
        [|congruence|exact Hc3|now apply fault_at_free|now apply fault_at_free].
      cbn [snd icon_redirect_map set_icon_redirect_map].
      rewrite lookup_insert_ne by congruence. simpl. now rewrite Hmap3.
    + pose proof (handle_response_keeps_map (req_url request) key nr w4 Hred) as Hm.
      rewrite Hresp in Hm |- *. cbn [snd] in Hm |- *. rewrite Hm.
      simpl. now rewrite Hmap3.
  - pose proof (keeps_handle_catch (same icon_redirect_map) ltac:(frame_solver)
                  ltac:(frame_solver) (req_url request) key TransportError) as Hcatch.
    match goal with
    | |- icon_redirect_map (snd (?h ?wc)) !! _ = _ =>
        specialize (Hcatch wc); unfold same in Hcatch; rewrite <- Hcatch
    end.
    simpl. now rewrite Hmap3.
Qed.

(** X21.  A URL with [/assets/] somewhere inside it is never treated as
    an icon request, even when it is on the AllowList: the handler runs
    the plain fetch on the untouched world and hands back its outcome,
    without reading storage or the cache. *)
Theorem handle_passes_assets_through (E : Env) (request : Request) (w : World)
    (pre post : string) :
  req_url request = (pre ++ "/assets/" ++ post)%string ->
  isIconRequest (req_url request) w = (Ok false, w) /\
  handle E request w =
  (match fetch_result E (FetchRequest request) with
   | Some r => Ok r
   | None => Throw TransportError
   end,
   set_network_log (network_log w ++ [FetchRequest request]) w).
Proof.
  intros Hurl.
  assert (Hinc : includes (req_url request) "/assets/" = true).
  { apply includes_iff. eauto. }
  assert (Hicon : isIconRequest (req_url request) w = (Ok false, w)).
  { unfold isIconRequest, try_catch. now rewrite Hinc. }
  split; [exact Hicon|].
  unfold handle, bind. rewrite Hicon. cbn [negb]. apply fetch_run.
Qed.

(** X22.  After a sweep in which nothing fails, every entry left in the
    icon cache is fresh, and a second sweep at the same time changes no
    entry: sweeping is idempotent. *)
Theorem cleanExpiredCache_idempotent (E : Env) (w : World) :
  faults w = [] ->
  (forall key r,
     cache_entry (snd (cleanExpiredCache E w)) ICON_CACHE_NAME key = Some r ->
     isCacheExpired E (Some r) = false) /\
  (forall name key,
     cache_entry (snd (cleanExpiredCache E (snd (cleanExpiredCache E w)))) name key
     = cache_entry (snd (cleanExpiredCache E w)) name key).
Proof.
  intros Hf.
  destruct (cleanExpiredCache_run_fault_free E w Hf) as (w1 & Hrun1 & He1).
  assert (Hf1 : faults w1 = []).
  { pose proof (keeps_cleanExpiredCache stays_fault_free ltac:(frame_solver)
                  ltac:(frame_solver) ltac:(frame_solver) ltac:(frame_solver) E w) as H.
    rewrite Hrun1 in H. exact (H Hf). }
  assert (Hfresh : forall key r,
            cache_entry w1 ICON_CACHE_NAME key = Some r ->
            isCacheExpired E (Some r) = false).
  { intros key r. rewrite He1, String.eqb_refl. cbn [andb].
    destruct (cache_entry w ICON_CACHE_NAME key) as [r'|]; cbn [entry_expired].
    - destruct (isCacheExpired E (Some r')) eqn:Hx; [discriminate|]. congruence.
    - discriminate. }
  rewrite Hrun1. cbn [snd]. split; [exact Hfresh|].
  destruct (cleanExpiredCache_run_fault_free E w1 Hf1) as (w2 & Hrun2 & He2).
  rewrite Hrun2. cbn [snd]. intros name key. rewrite He2.
  destruct (String.eqb_spec name ICON_CACHE_NAME) as [->|]; cbn [andb]; [|reflexivity].
  destruct (cache_entry w1 ICON_CACHE_NAME key) as [r|] eqn:Hr; cbn [entry_expired];
    [|reflexivity].
  now rewrite (Hfresh key r Hr).
Qed.

(** * The further properties at the sample data *)

Lemma icon_url_allowed fs :
  icon_url ∈ AllowList (stale_world fs) /\ icon_url ∈ AllowList fresh_world.
Proof.
  split; unfold AllowList; cbn [chrome_storage cached_online_icon_urls stale_world
                                 fresh_world list_to_set foldr];
    apply elem_of_union; left; now apply elem_of_singleton.
Qed.

(** X1 at the sample data: the fresh icon is returned and stays. *)
Lemma getIconFromCache_returns_fresh_witness :
  isCacheExpired env_down (Some (epoch_icon icon_url)) = false /\
  cache_entry (stale_world []) ICON_CACHE_NAME icon_url = Some (epoch_icon icon_url).
Proof.
  destruct (getIconFromCache_returns_fresh env_down (new_Request icon_url) (stale_world []))
    as (_ & H & _).
  destruct (H (epoch_icon icon_url) eq_refl) as (H1 & H2 & _).
  split; [exact H1 | exact H2].
Defined.

(** X2 at the sample data: one millisecond later the icon is evicted. *)
Lemma getIconFromCache_evicts_on_read_witness :
  fst (getIconFromCache env_down_later (new_Request icon_url) (stale_world [])) = Ok None /\
  cache_entry
    (snd (getIconFromCache env_down_later (new_Request icon_url) (stale_world [])))
    ICON_CACHE_NAME icon_url = None.
Proof.
  destruct (getIconFromCache_evicts_on_read env_down_later (new_Request icon_url)
              (stale_world []) eq_refl) as (H & _).
  destruct (H (epoch_icon icon_url) eq_refl eq_refl) as (H1 & H2 & _).
  split; [exact H1 | exact H2].
Defined.

(** X3 at the sample data: stored, then read back. *)
Lemma cacheIcon_then_getIconFromCache_witness :
  fst (getIconFromCache env_down (new_Request icon_url)
         (snd (cacheIcon (new_Request icon_url) (epoch_icon icon_url) fresh_world)))
  = Ok (Some (epoch_icon icon_url)).
Proof.
  destruct (cacheIcon_then_getIconFromCache env_down (new_Request icon_url)
              (epoch_icon icon_url) fresh_world eq_refl eq_refl) as (H & _).
  exact H.
Defined.

(** X4 at the sample data: an HTML page is refused. *)
Lemma cacheIcon_frame_witness :
  caches (snd (cacheIcon (new_Request icon_url) (html_page icon_url) fresh_world)) = [].
Proof.
  destruct (cacheIcon_frame (new_Request icon_url) (html_page icon_url) fresh_world)
    as (_ & _ & _ & H).
  destruct (H eq_refl) as (H1 & _). exact H1.
Defined.

(** X5 at the sample data: the sweep removes the expired icon. *)
Lemma cleanExpiredCache_fault_free_witness :
  cache_entry (snd (cleanExpiredCache env_down_later (stale_world [])))
    ICON_CACHE_NAME icon_url = None.
Proof.
  destruct (cleanExpiredCache_fault_free env_down_later (stale_world []) eq_refl)
    as (_ & H).
  rewrite H. reflexivity.
Defined.

(** X6 at the sample data: the fresh icon survives a sweep whose second
    call fails. *)
Lemma cleanExpiredCache_removes_only_expired_witness :
  cache_entry (snd (cleanExpiredCache env_down (stale_world [false; true])))
    ICON_CACHE_NAME icon_url = Some (epoch_icon icon_url).
Proof.
  destruct (cleanExpiredCache_removes_only_expired env_down (stale_world [false; true]))
    as (_ & _ & _ & H & _).
  apply H; [reflexivity | right; reflexivity].
Defined.

(** X8 at the sample data: the network answers, every storage and cache
    call fails, and the handler still returns a response. *)
Lemma handle_rejects_only_witness :
  exists r,
    fst (handle (env_answer not_found_at_cdn) (new_Request icon_url)
           (stale_world [true; true; true; true; true; true; true; true]))
    = Ok r.
Proof.
  destruct (handle_rejects_only (env_answer not_found_at_cdn) (new_Request icon_url)
              (stale_world [true; true; true; true; true; true; true; true]))
    as (_ & H & _).
  apply H; discriminate.
Defined.

(** X9 at the sample data: the fresh icon is served, nothing changes. *)
Lemma handle_cache_hit_witness :
  handle env_down (new_Request icon_url) (stale_world [])
  = (Ok (epoch_icon icon_url), stale_world []).
Proof.
  apply (handle_cache_hit env_down (new_Request icon_url) (stale_world [])
           (epoch_icon icon_url));
    [reflexivity | apply (icon_url_allowed []) | reflexivity | reflexivity | reflexivity].
Defined.

(** X10 at the sample data: the icon arrives from [cdn_url] after a
    redirect; the redirect is recorded and the icon stored under
    [cdn_url]. *)
Lemma handle_fetches_and_stores_witness :
  fst (handle (env_answer (epoch_icon cdn_url)) (new_Request icon_url) fresh_world)
  = Ok (epoch_icon cdn_url) /\
  icon_redirect_map
    (snd (handle (env_answer (epoch_icon cdn_url)) (new_Request icon_url) fresh_world))
  = {[ icon_url := cdn_url ]} /\
  cache_entry
    (snd (handle (env_answer (epoch_icon cdn_url)) (new_Request icon_url) fresh_world))
    ICON_CACHE_NAME cdn_url
  = Some (epoch_icon cdn_url).
Proof.
  destruct (handle_fetches_and_stores (env_answer (epoch_icon cdn_url))
              (new_Request icon_url) fresh_world (epoch_icon cdn_url))
    as (H1 & _ & H3 & H4);
    [reflexivity | apply (icon_url_allowed []) | reflexivity | discriminate
    | reflexivity | reflexivity | reflexivity |].
  split; [exact H1|]. split; [exact H3 | exact H4].
Defined.

(** X11 at the sample data: the second request is served from the cache. *)
Lemma handle_second_request_hits_witness :
  fst (handle (env_answer (epoch_icon cdn_url)) (new_Request icon_url)
         (snd (handle (env_answer (epoch_icon cdn_url)) (new_Request icon_url)
                 fresh_world)))
  = Ok (epoch_icon cdn_url).
Proof.
  rewrite (handle_second_request_hits (env_answer (epoch_icon cdn_url))
             (new_Request icon_url) fresh_world (epoch_icon cdn_url));
    [reflexivity | reflexivity | apply (icon_url_allowed []) | reflexivity | discriminate
    | reflexivity | reflexivity | reflexivity | reflexivity].
Defined.

(** X12 at the sample data: a 404 is not stored. *)
Lemma handle_adds_only_network_response_witness :
  nothing_added fresh_world
    (snd (handle (env_answer not_found_at_cdn) (new_Request icon_url) fresh_world)).
Proof.
  destruct (handle_adds_only_network_response (env_answer not_found_at_cdn)
              (new_Request icon_url) fresh_world) as (_ & H & _).
  apply (H not_found_at_cdn); reflexivity.
Defined.

(** X13 at the sample data: fresh at 30 days, hence fresh on the day it
    was served. *)
Lemma isCacheExpired_monotone_witness :
  isCacheExpired (mkEnv 0 sample_Date_parse (fun _ => None))
    (Some (epoch_icon icon_url)) = false.
Proof.
  destruct (isCacheExpired_monotone (mkEnv 0 sample_Date_parse (fun _ => None))
              env_down (Some (epoch_icon icon_url))) as (_ & H).
  - reflexivity.
  - discriminate.
  - apply H. reflexivity.
Defined.

(** X14 at the sample data: an image type with a parameter passes. *)
Lemma isImageResponse_substring_witness :
  isImageResponse (Some png_with_charset) = true.
Proof.
  apply (isImageResponse_substring png_with_charset).
  exists "image/png", "", "; charset=binary".
  split; [left; reflexivity | reflexivity].
Defined.

(** X15 at the sample data: the read of the redirect map fails. *)
Lemma resolveRedirectUrl_falls_back_witness :
  fst (resolveRedirectUrl icon_url (set_faults [true] redirected_world)) = Ok icon_url.
Proof.
  destruct (resolveRedirectUrl_falls_back icon_url (set_faults [true] redirected_world))
    as (_ & H & _).
  destruct (H eq_refl eq_refl) as (H1 & _). exact H1.
Defined.

(** X16 at the sample data: the write of the redirect map fails. *)
Lemma saveRedirectMapping_swallows_errors_witness :
  icon_redirect_map
    (snd (saveRedirectMapping icon_url page_url (set_faults [false; true] redirected_world)))
  = icon_redirect_map redirected_world.
Proof.
  destruct (saveRedirectMapping_swallows_errors icon_url page_url
              (set_faults [false; true] redirected_world)) as (_ & _ & H & _).
  destruct (H ltac:(discriminate) eq_refl eq_refl) as (H1 & _). exact H1.
Defined.

(** X17 at the sample data: recorded, then resolved. *)
Lemma saveRedirectMapping_then_resolve_witness :
  fst (resolveRedirectUrl icon_url (snd (saveRedirectMapping icon_url cdn_url fresh_world)))
  = Ok cdn_url.
Proof.
  destruct (saveRedirectMapping_then_resolve icon_url cdn_url fresh_world
              eq_refl eq_refl ltac:(discriminate) ltac:(discriminate)) as (H & _).
  exact H.
Defined.

(** X18 at the sample data: a suggestions message is answered with
    success; the correctly spelt favicon type is not a type the
    listener knows. *)
Lemma onMessage_replies_witness :
  is_success (reply (onMessage (text_env gbk_page) suggestions_message)) = true /\
  onMessage (text_env gbk_page) (mkMessage "FETCH_HOST_FAVICON" page_url)
  = {| reply := None; kept_open := false; fetched := [] |}.
Proof.
  destruct (onMessage_replies (text_env gbk_page) suggestions_message)
    as (H1 & _).
  destruct (onMessage_replies (text_env gbk_page) (mkMessage "FETCH_HOST_FAVICON" page_url))
    as (_ & _ & _ & H4).
  split.
  - destruct (H1 eq_refl) as (_ & _ & _ & H). apply H.
    exists gbk_page, "text/html; charset=gbk". repeat split.
  - apply H4; discriminate.
Defined.

(** X19 at the sample data: a GBK page is transcoded. *)
Lemma suggestions_transcoding_witness :
  reply (onMessage (text_env gbk_page) suggestions_message)
  = Some (ReplySuccess (DataSuggested (SuggestedText "gbk:suggestions"))).
Proof.
  destruct (suggestions_transcoding (text_env gbk_page) suggestions_message gbk_page
              "text/html; charset=gbk" eq_refl eq_refl eq_refl eq_refl) as (H & _).
  apply H. exists "text/html; ", "". left. reflexivity.
Defined.

(** X20 at the sample data: the redirect recorded for [cdn_url] survives
    a request for [icon_url]. *)
Lemma handle_keeps_other_redirects_witness :
  icon_redirect_map
    (snd (handle (env_answer (epoch_icon page_url)) (new_Request icon_url)
            redirected_world)) !! cdn_url
  = Some page_url.
Proof.
  destruct (handle_keeps_other_redirects (env_answer (epoch_icon page_url))
              (new_Request icon_url) redirected_world) as (_ & _ & _ & H).
  rewrite (H eq_refl cdn_url ltac:(discriminate)). reflexivity.
Defined.

(** X21 at the sample data: a bundled asset goes straight to the
    network. *)
Lemma handle_passes_assets_through_witness :
  fst (handle (env_answer (html_page asset_url)) (new_Request asset_url) fresh_world)
  = Ok (html_page asset_url).
Proof.
  destruct (handle_passes_assets_through (env_answer (html_page asset_url))
              (new_Request asset_url) fresh_world "https://example.com" "logo.png" eq_refl)
    as (_ & H).
  rewrite H. reflexivity.
Defined.

(** X22 at the sample data: after the sweep removed the expired icon, a
    second sweep finds nothing to do. *)
Lemma cleanExpiredCache_idempotent_witness :
  cache_entry
    (snd (cleanExpiredCache env_down_later
            (snd (cleanExpiredCache env_down_later (stale_world [])))))
    ICON_CACHE_NAME icon_url
  = None.
Proof.
  destruct (cleanExpiredCache_idempotent env_down_later (stale_world []) eq_refl)
    as (_ & H).
  rewrite H. reflexivity.
Defined.
